(** * Mexico mileage backend: address building, leg classification,
      distance lookup and the bounded enrichment pipeline of [src/main.py].

    The Python code is embedded function by function.  Cell values and the
    provider's JSON body are inductive types, Python exceptions are the
    [Raise] side of a small error monad, binary64 arithmetic is the
    Standard Library's [SpecFloat], a spreadsheet row is a finite map from
    column names to cell values, and the [asyncio] tasks of one run are a
    step relation over a pool of task states guarded by a semaphore. *)

From Stdlib Require Import ZArith String Ascii DecimalString.
From Stdlib Require Import Floats.SpecFloat.
From stdpp Require Import gmap strings list.

Local Open Scope string_scope.

(** ** Python strings

    A [string] is read as a sequence of code points below 256. *)

Module PyStr.

(** [str.isspace] on one code point below 256: TAB..CR, FS..US, SPACE,
    NEL (0x85) and NBSP (0xA0). *)
Definition is_space (c : ascii) : bool :=
  let n := N_of_ascii c in
  ((9 <=? n) && (n <=? 13) || (28 <=? n) && (n <=? 32)
   || (n =? 133) || (n =? 160))%N.

Fixpoint lstrip (s : string) : string :=
  match s with
  | EmptyString => EmptyString
  | String c s' => if is_space c then lstrip s' else s
  end.

Fixpoint rstrip (s : string) : string :=
  match s with
  | EmptyString => EmptyString
  | String c s' =>
      match rstrip s' with
      | EmptyString => if is_space c then EmptyString else String c EmptyString
      | r => String c r
      end
  end.

(** [s.strip()] *)
Definition strip (s : string) : string := lstrip (rstrip s).

(** [s.replace(old, new)] for a one-character [old]. *)
Fixpoint replace (old : ascii) (new : string) (s : string) : string :=
  match s with
  | EmptyString => EmptyString
  | String c s' =>
      if Ascii.eqb c old then new ++ replace old new s'
      else String c (replace old new s')
  end.

(** [sep.join(parts)] *)
Definition join (sep : string) (parts : list string) : string :=
  String.concat sep parts.

(** Truth value of a string: [bool(s)]. *)
Definition truthy (s : string) : bool :=
  match s with EmptyString => false | _ => true end.

(** Truth value of [None]-or-string, the shape of every [norm] result. *)
Definition opt_truthy (o : option string) : bool :=
  match o with None => false | Some s => truthy s end.

(** [str(n)] for an [int]. *)
Definition of_Z (n : Z) : string := NilZero.string_of_int (Z.to_int n).

End PyStr.

(** ** Python floats (IEEE binary64) *)

Module PyFloat.

Definition prec : Z := 53.
Definition emax : Z := 1024.

Definition is_nan (f : spec_float) : bool :=
  match f with S754_nan => true | _ => false end.

Definition is_zero (f : spec_float) : bool :=
  match f with S754_zero _ => true | _ => false end.

(** The binary64 nearest to the integer [n], ties to even (infinite when
    [n] is out of range). *)
Definition of_Z (n : Z) : spec_float := binary_normalize prec emax n 0 false.

(** The binary64 nearest to [num / den] with sign [s], ties to even: what
    reading a decimal literal yields. *)
Definition of_ratio (s : bool) (num den : positive) : spec_float :=
  let '(mz, ez, lz) := SFdiv_core_binary prec emax (Zpos num) 0 (Zpos den) 0 in
  binary_round_aux prec emax s mz ez lz.

Definition mul (x y : spec_float) : spec_float := SFmul prec emax x y.

(** Nearest integer to [n / d], ties to even ([0 < d]). *)
Definition div_half_even (n d : Z) : Z :=
  let q := (n / d)%Z in
  let r := (n mod d)%Z in
  match (2 * r ?= d)%Z with
  | Lt => q
  | Gt => (q + 1)%Z
  | Eq => if Z.even q then q else (q + 1)%Z
  end.

(** [round(x, 1)]: the exact value of [x] is rounded to one decimal place
    (ties to even) and the decimal is read back as a binary64; infinities
    and NaN round to themselves. *)
Definition round1 (x : spec_float) : spec_float :=
  match x with
  | S754_finite s m e =>
      if (0 <=? e)%Z then x
      else
        match div_half_even (10 * Zpos m) (2 ^ (- e)) with
        | Zpos q => of_ratio s q 10
        | _ => S754_zero s
        end
  | _ => x
  end.

(** The integer a finite float denotes, when it denotes one. *)
Definition integral_value (m : positive) (e : Z) : option Z :=
  if (0 <=? e)%Z then Some (Zpos m * 2 ^ e)%Z
  else if (Zpos m mod 2 ^ (- e) =? 0)%Z then Some (Zpos m / 2 ^ (- e))%Z
  else None.

Definition sign_str (s : bool) : string := if s then "-" else "".

Section Repr.
(** [str] of a float that is neither special nor an integer below 2^53
    (shortest round-trip digits); left to the caller. *)
Variable repr_other : spec_float -> string.

(** [str(x)] for a float. *)
Definition to_str (x : spec_float) : string :=
  match x with
  | S754_nan => "nan"
  | S754_infinity s => sign_str s ++ "inf"
  | S754_zero s => sign_str s ++ "0.0"
  | S754_finite s m e =>
      match integral_value m e with
      | Some n =>
          if (n <? 2 ^ 53)%Z then sign_str s ++ PyStr.of_Z n ++ ".0"
          else repr_other x
      | None => repr_other x
      end
  end.
End Repr.

End PyFloat.

(** ** Cell values and field normalisation *)

(** A value found in a spreadsheet cell.  [PyObj] stands for any other
    object (a timestamp, say), known by its truth value and its [str]
    rendering. *)
Inductive pyval :=
  | PyNone
  | PyBool (b : bool)
  | PyInt (n : Z)
  | PyFloat (x : spec_float)
  | PyStr (s : string)
  | PyObj (truth : bool) (rendering : string).

(** A row of the data frame: column name to cell. *)
Abbreviation row := (gmap string pyval).

(** [row.get(col)]: the cell, or [None] for a column that is not there. *)
Definition row_get (r : row) (col : string) : pyval := default PyNone (r !! col).

(** A [norm] result seen again as a Python value. *)
Definition of_opt (o : option string) : pyval :=
  match o with None => PyNone | Some s => PyStr s end.

Section Addresses.
Variable repr_other : spec_float -> string.

(** [str(v)] *)
Definition py_str (v : pyval) : string :=
  match v with
  | PyNone => "None"
  | PyBool b => if b then "True" else "False"
  | PyInt n => PyStr.of_Z n
  | PyFloat x => PyFloat.to_str repr_other x
  | PyStr s => s
  | PyObj _ s => s
  end.

(** [bool(v)] *)
Definition py_truthy (v : pyval) : bool :=
  match v with
  | PyNone => false
  | PyBool b => b
  | PyInt n => negb (n =? 0)%Z
  | PyFloat x => negb (PyFloat.is_zero x)
  | PyStr s => PyStr.truthy s
  | PyObj t _ => t
  end.

Definition is_none (v : pyval) : bool :=
  match v with PyNone => true | _ => false end.

(** [isinstance(v, float) and pd.isna(v)] *)
Definition is_float_nan (v : pyval) : bool :=
  match v with PyFloat x => PyFloat.is_nan x | _ => false end.

Definition norm (v : pyval) : option string :=
  if is_none v then None
  else if is_float_nan v then None
  else Some (PyStr.strip (py_str v)).

(** ** AddressBuilder *)

Definition build_address
    (city_state_str : option string) (zip_code : pyval) (country : string)
    : option string :=
  match city_state_str with
  | None => None
  | Some cs =>
      if negb (PyStr.truthy cs) then None
      else
        let cs' := PyStr.replace "," ", " cs in
        let parts := [cs'] in
        let parts := if py_truthy zip_code then (parts ++ [py_str zip_code])%list else parts in
        let parts := (parts ++ [country])%list in
        Some (PyStr.join ", " parts)
  end.

Definition build_us_address
    (city state : option string) (zip_code : pyval) : option string :=
  match city, state with
  | Some c, Some s =>
      if negb (PyStr.truthy c) || negb (PyStr.truthy s) then None
      else
        let parts := [PyStr.strip c; PyStr.strip s] in
        let parts := if py_truthy zip_code then (parts ++ [py_str zip_code])%list else parts in
        let parts := (parts ++ ["USA"])%list in
        Some (PyStr.join ", " parts)
  | _, _ => None
  end.

(** ** LegClassifier *)

Definition classify_and_build_addresses (r : row)
    : option string * option string :=
  let mx_origin_cs := norm (row_get r "Mexico Origin City and State") in
  let mx_dest_cs := norm (row_get r "Mexico Dest City and State") in
  let orig_city := norm (row_get r "Origin City") in
  let orig_state := norm (row_get r "Origin State") in
  let orig_zip := norm (row_get r "Origin Zip") in
  let dest_city := norm (row_get r "Destination City") in
  let dest_state := norm (row_get r "Destination State") in
  let dest_zip := norm (row_get r "Destination Zip") in
  if PyStr.opt_truthy mx_origin_cs && negb (PyStr.opt_truthy mx_dest_cs) then
    let mx_origin_addr := build_address mx_origin_cs PyNone "Mexico" in
    let border_addr := build_us_address dest_city dest_state (of_opt dest_zip) in
    if negb (PyStr.opt_truthy border_addr) then (None, None)
    else (mx_origin_addr, border_addr)
  else if negb (PyStr.opt_truthy mx_origin_cs) && PyStr.opt_truthy mx_dest_cs then
    let border_addr := build_us_address orig_city orig_state (of_opt orig_zip) in
    let mx_dest_addr := build_address mx_dest_cs PyNone "Mexico" in
    if negb (PyStr.opt_truthy border_addr) || negb (PyStr.opt_truthy mx_dest_addr)
    then (None, None)
    else (border_addr, mx_dest_addr)
  else if PyStr.opt_truthy mx_origin_cs && PyStr.opt_truthy mx_dest_cs then
    let mx_origin_addr := build_address mx_origin_cs PyNone "Mexico" in
    let mx_dest_addr := build_address mx_dest_cs PyNone "Mexico" in
    (mx_origin_addr, mx_dest_addr)
  else (None, None).

(** The optional third part of an address: [", " ++ str(zip)] for a zip
    that counts as true, nothing otherwise. *)
Definition zip_part (zip_code : pyval) : string :=
  if py_truthy zip_code then ", " ++ py_str zip_code else "".

(** ** The presence signals and the four rules *)

Definition mexico_origin_token (r : row) : option string :=
  norm (row_get r "Mexico Origin City and State").
Definition mexico_dest_token (r : row) : option string :=
  norm (row_get r "Mexico Dest City and State").

Definition has_mexico_origin (r : row) : bool := PyStr.opt_truthy (mexico_origin_token r).
Definition has_mexico_dest (r : row) : bool := PyStr.opt_truthy (mexico_dest_token r).

Inductive rule := Rule1 | Rule2 | Rule3 | Rule4.

(** The rule the two presence signals select. *)
Definition rule_of (has_origin has_dest : bool) : rule :=
  match has_origin, has_dest with
  | true, false => Rule1
  | false, true => Rule2
  | true, true => Rule3
  | false, false => Rule4
  end.

Definition applicable_rule (r : row) : rule :=
  rule_of (has_mexico_origin r) (has_mexico_dest r).

(** The U.S. address of rule 1 (destination columns) and of rule 2
    (origin columns), as the classifier builds them. *)
Definition us_destination_address (r : row) : option string :=
  build_us_address (norm (row_get r "Destination City"))
                   (norm (row_get r "Destination State"))
                   (of_opt (norm (row_get r "Destination Zip"))).
Definition us_origin_address (r : row) : option string :=
  build_us_address (norm (row_get r "Origin City"))
                   (norm (row_get r "Origin State"))
                   (of_opt (norm (row_get r "Origin Zip"))).
End Addresses.

(** ** Exceptions *)

Inductive exn :=
  | TransportError   (* httpx: connection refused, timeout, ... *)
  | JSONDecodeError
  | AttributeError
  | TypeError
  | KeyError
  | IndexError
  | OverflowError.

Inductive result (A : Type) :=
  | Ok (a : A)
  | Raise (e : exn).
Arguments Ok {A} a.
Arguments Raise {A} e.

#[global] Instance result_ret : MRet result := fun _ a => Ok a.
#[global] Instance result_bind : MBind result := fun _ _ k m =>
  match m with Ok a => k a | Raise e => Raise e end.

Definition returns {A} (m : result A) : Prop := exists a, m = Ok a.

(** ** The provider's answer *)

(** What [resp.json()] yields. *)
#[warnings="-register-all"]
Inductive json :=
  | JNull
  | JBool (b : bool)
  | JInt (n : Z)
  | JFloat (x : spec_float)
  | JStr (s : string)
  | JArr (items : list json)
  | JObj (fields : list (string * json)).

(** Outcome of [client.post]: an exception of the HTTP client (provider
    unreachable, timeout), or a response with its status and its body as
    JSON ([None] when the text is not JSON). *)
Inductive http_result :=
  | NoResponse
  | Response (status_code : Z) (body : option json).

Module Json.

(** A key of a parsed object; the last of equal keys wins. *)
Fixpoint lookup (fields : list (string * json)) (k : string) : option json :=
  match fields with
  | [] => None
  | (k', v) :: rest =>
      match lookup rest k with
      | Some w => Some w
      | None => if String.eqb k' k then Some v else None
      end
  end.

(** [bool(v)] *)
Definition truthy (v : json) : bool :=
  match v with
  | JNull => false
  | JBool b => b
  | JInt n => negb (n =? 0)%Z
  | JFloat x => negb (PyFloat.is_zero x)
  | JStr s => PyStr.truthy s
  | JArr items => match items with [] => false | _ => true end
  | JObj fields => match fields with [] => false | _ => true end
  end.

(** [v.get(k, dflt)]: only a [dict] has the method. *)
Definition get (v : json) (k : string) (dflt : json) : result json :=
  match v with
  | JObj fields => Ok (default dflt (lookup fields k))
  | _ => Raise AttributeError
  end.

(** [v[0]] *)
Definition item0 (v : json) : result json :=
  match v with
  | JArr (x :: _) => Ok x
  | JArr [] => Raise IndexError
  | JStr (String c _) => Ok (JStr (String c EmptyString))
  | JStr EmptyString => Raise IndexError
  | JObj _ => Raise KeyError
  | _ => Raise TypeError
  end.

Definition is_null (v : json) : bool :=
  match v with JNull => true | _ => false end.

End Json.

(** ** DistanceClient *)

(** The literal [0.000621371]. *)
Definition MILES_PER_METER : spec_float := PyFloat.of_ratio false 621371 1000000000.

(** [float(n)] for an [int]: too large an [n] raises. *)
Definition int_to_float (n : Z) : result spec_float :=
  match PyFloat.of_Z n with
  | S754_infinity _ => Raise OverflowError
  | x => Ok x
  end.

(** [meters * 0.000621371] *)
Definition times_factor (meters : json) : result spec_float :=
  match meters with
  | JInt n => x ← int_to_float n; Ok (PyFloat.mul x MILES_PER_METER)
  | JBool b => Ok (PyFloat.mul (PyFloat.of_Z (if b then 1 else 0)) MILES_PER_METER)
  | JFloat x => Ok (PyFloat.mul x MILES_PER_METER)
  | _ => Raise TypeError
  end.

Section Client.
(** [GOOGLE_API_KEY], as [os.getenv] gave it. *)
Variable GOOGLE_API_KEY : option string.
(** [client.post] with the key, the origin and the destination. *)
Variable post : string -> string -> string -> http_result.

(** The code after [await client.post(...)]. *)
Definition read_response (resp : http_result) : result (option spec_float) :=
  match resp with
  | NoResponse => Raise TransportError
  | Response status_code body =>
      if negb (status_code =? 200)%Z then Ok None
      else
        data ← match body with Some d => Ok d | None => Raise JSONDecodeError end;
        routes ← Json.get data "routes" (JArr []);
        if negb (Json.truthy routes) then Ok None
        else
          route ← Json.item0 routes;
          meters ← Json.get route "distanceMeters" JNull;
          if Json.is_null meters then Ok None
          else
            miles ← times_factor meters;
            Ok (Some (PyFloat.round1 miles))
  end.

Definition google_route_distance_miles (origin_address destination_address : string)
    : result (option spec_float) :=
  match GOOGLE_API_KEY with
  | None => Ok None
  | Some key =>
      if negb (PyStr.truthy key) then Ok None
      else read_response (post key origin_address destination_address)
  end.
End Client.

(** ** EnrichmentPipeline *)

Section Pipeline.
Variable repr_other : spec_float -> string.
Variable GOOGLE_API_KEY : option string.
Variable post : string -> string -> string -> http_result.

Definition process_one (idx : nat) (r : row) : result (nat * option spec_float) :=
  let '(origin_addr, dest_addr) := classify_and_build_addresses repr_other r in
  match origin_addr, dest_addr with
  | Some o, Some d =>
      if negb (PyStr.truthy o) || negb (PyStr.truthy d) then Ok (idx, None)
      else
        miles ← google_route_distance_miles GOOGLE_API_KEY post o d;
        Ok (idx, miles)
  | _, _ => Ok (idx, None)
  end.

(** The distance-or-absent value computed for one record. *)
Definition distance_for (r : row) : result (option spec_float) :=
  tagged ← process_one 0 r; Ok (snd tagged).

(** [await asyncio.gather] over the tasks: the results in the order of the
    tasks, or an exception as soon as one task raises.  With several
    failing tasks the code surfaces the one that fails first in time;
    the lowest index stands for it here. *)
Fixpoint gather {A} (tasks : list (result A)) : result (list A) :=
  match tasks with
  | [] => Ok []
  | t :: ts => a ← t; rest ← gather ts; Ok (a :: rest)
  end.

(** [slots[idx] = x], which raises out of range. *)
Definition set_item {A} (slots : list A) (idx : nat) (x : A) : result (list A) :=
  if decide (idx < length slots) then Ok (<[idx:=x]> slots)
  else Raise IndexError.

(** [for idx, miles in results: mexico_miles[idx] = miles] *)
Fixpoint store_results (mexico_miles : list (option spec_float))
    (results : list (nat * option spec_float))
    : result (list (option spec_float)) :=
  match results with
  | [] => Ok mexico_miles
  | (idx, miles) :: rest =>
      mexico_miles' ← set_item mexico_miles idx miles;
      store_results mexico_miles' rest
  end.

(** [for idx, row in df.iterrows()]: the index of a frame read from a
    sheet is the row's position. *)
Definition tasks_of (rows : list row) : list (result (nat * option spec_float)) :=
  imap process_one rows.

(** The body of [calculate_mileage] from the semaphore to the
    ["Mexico Miles"] column. *)
Definition calculate_mileage (rows : list row) : result (list (option spec_float)) :=
  results ← gather (tasks_of rows);
  store_results (replicate (length rows) None) results.

(** ** The tasks of one run under the semaphore *)

(** Where one [process_one] coroutine stands. *)
Inductive task :=
  | Waiting                          (* before [async with sem] *)
  | Holding                          (* slot taken, nothing awaited yet *)
  | InFlight (origin dest : string)  (* awaiting [client.post] *)
  | Returned (miles : option spec_float)
  | Failed (e : exn).

Record pool := Pool { sem_value : nat; pool_tasks : list task }.

(** [asyncio.Semaphore(20)] *)
Definition SEM_LIMIT : nat := 20.

Definition init (rows : list row) : pool :=
  Pool SEM_LIMIT (replicate (length rows) Waiting).

Definition key_usable : option string :=
  match GOOGLE_API_KEY with
  | Some key => if PyStr.truthy key then Some key else None
  | None => None
  end.

(** One scheduling step of the event loop.  Entering [async with sem]
    takes a slot and needs a positive value; every way out of the block
    (early return, return after the call, exception) gives it back. *)
Inductive step (rows : list row) : pool -> pool -> Prop :=
  | step_acquire i n ts :
      ts !! i = Some Waiting ->
      step rows (Pool (S n) ts) (Pool n (<[i:=Holding]> ts))
  | step_no_leg i n ts r o d :
      ts !! i = Some Holding -> rows !! i = Some r ->
      classify_and_build_addresses repr_other r = (o, d) ->
      negb (PyStr.opt_truthy o) || negb (PyStr.opt_truthy d) = true ->
      step rows (Pool n ts) (Pool (S n) (<[i:=Returned None]> ts))
  | step_no_key i n ts r o d :
      ts !! i = Some Holding -> rows !! i = Some r ->
      classify_and_build_addresses repr_other r = (Some o, Some d) ->
      PyStr.truthy o && PyStr.truthy d = true ->
      key_usable = None ->
      step rows (Pool n ts) (Pool (S n) (<[i:=Returned None]> ts))
  | step_post i n ts r o d key :
      ts !! i = Some Holding -> rows !! i = Some r ->
      classify_and_build_addresses repr_other r = (Some o, Some d) ->
      PyStr.truthy o && PyStr.truthy d = true ->
      key_usable = Some key ->
      step rows (Pool n ts) (Pool n (<[i:=InFlight o d]> ts))
  | step_response i n ts o d key miles :
      ts !! i = Some (InFlight o d) ->
      key_usable = Some key ->
      read_response (post key o d) = Ok miles ->
      step rows (Pool n ts) (Pool (S n) (<[i:=Returned miles]> ts))
  | step_raise i n ts o d key e :
      ts !! i = Some (InFlight o d) ->
      key_usable = Some key ->
      read_response (post key o d) = Raise e ->
      step rows (Pool n ts) (Pool (S n) (<[i:=Failed e]> ts)).

Definition reachable (rows : list row) (st : pool) : Prop :=
  rtc (step rows) (init rows) st.

Definition holds_slot (t : task) : bool :=
  match t with Holding | InFlight _ _ => true | _ => false end.

Definition in_flight (t : task) : bool :=
  match t with InFlight _ _ => true | _ => false end.

Definition finished_task (t : task) : bool :=
  match t with Returned _ | Failed _ => true | _ => false end.

Fixpoint count (p : task -> bool) (ts : list task) : nat :=
  match ts with
  | [] => 0
  | t :: ts' => (if p t then 1 else 0) + count p ts'
  end.

Definition finished (st : pool) : bool := forallb finished_task (pool_tasks st).

(** What [gather] hands back once every task is done: the tagged
    results in task order, unless a task failed. *)
Fixpoint gathered (idx : nat) (ts : list task) : option (list (nat * option spec_float)) :=
  match ts with
  | [] => Some []
  | Returned miles :: ts' => rest ← gathered (S idx) ts'; Some ((idx, miles) :: rest)
  | _ :: _ => None
  end.

(** The record's value when its lookup returns. *)
Definition miles_of (r : row) : option spec_float :=
  match distance_for r with Ok miles => miles | Raise _ => None end.

(** The tagged results of the records, in record order. *)
Definition tagged_results (rows : list row) : list (nat * option spec_float) :=
  imap (fun idx r => (idx, miles_of r)) rows.

Definition failed_task (t : task) : bool :=
  match t with Failed _ => true | _ => false end.

(** How a run ends.  [gather] raises as soon as one task has failed, and
    the request is then answered with an error; otherwise, once every task
    has returned, the slots are written and the column is the result. *)
Inductive outcome :=
  | Running
  | Aborted
  | Completed (mexico_miles : list (option spec_float)).

Definition run_outcome (st : pool) : outcome :=
  if existsb failed_task (pool_tasks st) then Aborted
  else
    match gathered 0 (pool_tasks st) with
    | None => Running
    | Some results =>
        match store_results (replicate (length (pool_tasks st)) None) results with
        | Ok out => Completed out
        | Raise _ => Aborted
        end
    end.

(** The state a record's task ends in. *)
Definition final_task (r : row) : task :=
  match distance_for r with
  | Ok miles => Returned miles
  | Raise e => Failed e
  end.

(** A task state that fits its record: a call in flight is the call for
    the record's address pair, a result is the record's result. *)
Definition task_agrees (r : row) (t : task) : Prop :=
  match t with
  | Waiting | Holding => True
  | InFlight o d =>
      exists key, key_usable = Some key
        /\ classify_and_build_addresses repr_other r = (Some o, Some d)
        /\ PyStr.truthy o && PyStr.truthy d = true
  | _ => t = final_task r
  end.

(** The invariant of a run: slots free plus slots held is the limit, and
    every task fits its record. *)
Definition pool_inv (rows : list row) (st : pool) : Prop :=
  sem_value st + count holds_slot (pool_tasks st) = SEM_LIMIT
  /\ length (pool_tasks st) = length rows
  /\ forall i r t, rows !! i = Some r -> pool_tasks st !! i = Some t -> task_agrees r t.
End Pipeline.

(** How far a task has come: waiting, holding a slot, calling, ended. *)
Definition task_rank (t : task) : nat :=
  match t with
  | Waiting => 0
  | Holding => 1
  | InFlight _ _ => 2
  | Returned _ | Failed _ => 3
  end.

(** ** The request handler

    [calculate_mileage] as a whole: the checks on the upload that come
    before the pipeline and the reply that comes after it. *)

(** [c.lower()] for a code point below 256: A..Z and the accented capitals
    (0xC0..0xDE, the multiplication sign apart) move up by 32. *)
Definition lower_char (c : ascii) : ascii :=
  let n := N_of_ascii c in
  if ((65 <=? n) && (n <=? 90)
      || (192 <=? n) && (n <=? 222) && negb (n =? 215))%N
  then ascii_of_N (n + 32) else c.

(** [s.lower()] *)
Fixpoint str_lower (s : string) : string :=
  match s with
  | EmptyString => EmptyString
  | String c s' => String (lower_char c) (str_lower s')
  end.

(** [s.endswith(suffix)]: [s] or one of its tails is [suffix]. *)
Fixpoint str_endswith (s suffix : string) : bool :=
  String.eqb s suffix
  || match s with
     | EmptyString => false
     | String _ s' => str_endswith s' suffix
     end.

(** [file.filename.lower().endswith((".xlsx", ".xls"))] *)
Definition has_excel_extension (filename : string) : bool :=
  str_endswith (str_lower filename) ".xlsx" || str_endswith (str_lower filename) ".xls".

(** The data frame [pd.read_excel] gives: its column labels and its rows. *)
Record data_frame := DataFrame { df_columns : list string; df_rows : list row }.

Definition required_cols : list string :=
  [ "Mexico Origin City and State";
    "Mexico Dest City and State";
    "Origin City";
    "Origin State";
    "Origin Zip";
    "Destination City";
    "Destination State";
    "Destination Zip" ].

(** [repr] of a string of letters and spaces, as the required column names
    are, and of a list of such strings. *)
Definition repr_name (c : string) : string := "'" ++ c ++ "'".
Definition repr_names (l : list string) : string :=
  "[" ++ PyStr.join ", " (repr_name <$> l) ++ "]".

(** What the handler answers: an [HTTPException], the spreadsheet with
    its new ["Mexico Miles"] column, or an exception nobody caught. *)
Inductive reply :=
  | HTTPException (status_code : Z) (detail : string)
  | StreamingResponse (content_disposition : string) (df : data_frame)
      (mexico_miles : list (option spec_float))
  | Uncaught (e : exn).

Section Handler.
Variable repr_other : spec_float -> string.
Variable GOOGLE_API_KEY : option string.
Variable post : string -> string -> string -> http_result.
(** [pd.read_excel] on the uploaded bytes; [None] when it raises. *)
Variable read_excel : string -> option data_frame.

(** [[c for c in required_cols if c not in df.columns]] *)
Definition missing_cols (df : data_frame) : list string :=
  filter (fun c => c ∉ df_columns df) required_cols.

Definition handle_calculate_mileage (filename content : string) : reply :=
  if negb (has_excel_extension filename) then
    HTTPException 400 "Please upload an Excel .xlsx or .xls file"
  else
    match read_excel content with
    | None => HTTPException 400 "Could not read Excel file"
    | Some df =>
        let missing := missing_cols df in
        match missing with
        | _ :: _ => HTTPException 400 ("Missing columns: " ++ repr_names missing)
        | [] =>
            match calculate_mileage repr_other GOOGLE_API_KEY post (df_rows df) with
            | Ok mexico_miles =>
                StreamingResponse ("attachment; filename=mexico_miles_" ++ filename)
                  df mexico_miles
            | Raise e => Uncaught e
            end
        end
    end.
End Handler.

(** ** Sample records *)

(** A rendering for the floats [PyFloat.to_str] leaves open; the sample
    records hold none of them. *)
Definition repr_unused : spec_float -> string := fun _ => "".

(** Rule 1: Mexico origin, U.S. destination. *)
Definition row_tijuana : row :=
  {[ "Mexico Origin City and State" := PyStr "TIJUANA,BC";
     "Destination City" := PyStr "San Diego";
     "Destination State" := PyStr "CA";
     "Destination Zip" := PyStr "92101" ]}.

(** Rule 1 with no destination state. *)
Definition row_no_state : row :=
  {[ "Mexico Origin City and State" := PyStr "TIJUANA,BC";
     "Destination City" := PyStr "San Diego";
     "Destination State" := PyStr "  ";
     "Destination Zip" := PyStr "92101" ]}.

(** Rule 3: both ends in Mexico, with zip columns filled all the same. *)
Definition row_mexico : row :=
  {[ "Mexico Origin City and State" := PyStr "JUAREZ,CH";
     "Mexico Dest City and State" := PyStr "MONTERREY,NL";
     "Origin Zip" := PyStr "32000";
     "Destination Zip" := PyInt 64000 ]}.

(** Rule 4: no Mexico column filled. *)
Definition row_domestic : row :=
  {[ "Origin City" := PyStr "Dallas"; "Origin State" := PyStr "TX";
     "Destination City" := PyStr "Tulsa"; "Destination State" := PyStr "OK" ]}.

(** The float [92101.0]. *)
Definition zip_92101 : spec_float := PyFloat.of_Z 92101.

(** A provider that answers every request with one route of 160934 m. *)
Definition post_160934 (key origin dest : string) : http_result :=
  Response 200 (Some (JObj [("routes", JArr [JObj [("distanceMeters", JInt 160934)]])])).

(** A provider that cannot be reached. *)
Definition post_unreachable (key origin dest : string) : http_result := NoResponse.

(** Two records, the first with a leg inside Mexico, the second with none. *)
Definition rows_mixed : list row := [row_mexico; row_domestic].

(** A run over [rows_mixed] caught while the first record's call is in
    flight and the second task still waits. *)
Definition pool_calling : pool :=
  Pool 19 [InFlight "JUAREZ, CH, Mexico" "MONTERREY, NL, Mexico"; Waiting].

(** Two ends of a run over [rows_mixed] whose provider cannot be reached:
    the first task served first, and the second task served first. *)
Definition pool_failed_first : pool := Pool 20 [Failed TransportError; Waiting].
Definition pool_failed_last : pool := Pool 20 [Failed TransportError; Returned None].

(** A sheet whose header lacks two of the required columns. *)
Definition df_short : data_frame :=
  DataFrame [ "Mexico Origin City and State"; "Mexico Dest City and State";
              "Origin City"; "Origin State"; "Destination City";
              "Destination State"; "Notes" ] [].

(** A sheet with the eight columns, one more, and the two sample records. *)
Definition df_mixed : data_frame :=
  DataFrame (required_cols ++ ["Notes"])%list [row_mexico; row_domestic].

(** * Properties *)

(** ** Strings and normalisation *)

Lemma truthy_nonempty (s : string) : PyStr.truthy s = true <-> s ≠ "".
Proof. destruct s; simpl; split; intros; congruence. Qed.

Lemma opt_truthy_Some (o : option string) :
  PyStr.opt_truthy o = true <-> exists s, o = Some s /\ s ≠ "".
Proof.
  destruct o as [s|]; simpl.
  - rewrite truthy_nonempty. split; [eauto | intros (s' & [= <-] & ?); done].
  - split; [done | intros (s' & ? & _); done].
Qed.

Lemma opt_truthy_false (o : option string) :
  PyStr.opt_truthy o = false <-> o = None \/ o = Some "".
Proof.
  destruct o as [[|c s]|]; simpl; split; intros; try done; auto.
  destruct H; congruence.
Qed.

Lemma join2 (a b : string) : PyStr.join ", " [a; b] = a ++ ", " ++ b.
Proof. reflexivity. Qed.

Lemma join3 (a b c : string) : PyStr.join ", " [a; b; c] = a ++ ", " ++ b ++ ", " ++ c.
Proof. reflexivity. Qed.

Section AddressFacts.
Variable repr_other : spec_float -> string.

#[local] Abbreviation norm := (norm repr_other).
#[local] Abbreviation py_str := (py_str repr_other).
#[local] Abbreviation build_address := (build_address repr_other).
#[local] Abbreviation build_us_address := (build_us_address repr_other).
#[local] Abbreviation classify_and_build_addresses := (classify_and_build_addresses repr_other).
#[local] Abbreviation zip_part := (zip_part repr_other).
#[local] Abbreviation mexico_origin_token := (mexico_origin_token repr_other).
#[local] Abbreviation mexico_dest_token := (mexico_dest_token repr_other).
#[local] Abbreviation has_mexico_origin := (has_mexico_origin repr_other).
#[local] Abbreviation has_mexico_dest := (has_mexico_dest repr_other).
#[local] Abbreviation applicable_rule := (applicable_rule repr_other).
#[local] Abbreviation us_destination_address := (us_destination_address repr_other).
#[local] Abbreviation us_origin_address := (us_origin_address repr_other).

Lemma build_address_nonempty (cs : string) (zip_code : pyval) (country : string) :
  cs ≠ "" ->
  build_address (Some cs) zip_code country
  = Some (PyStr.replace "," ", " cs ++ zip_part zip_code ++ ", " ++ country).
Proof.
  intros Hcs. unfold build_address, zip_part.
  apply truthy_nonempty in Hcs. rewrite Hcs. simpl negb. cbv iota.
  destruct (py_truthy zip_code); simpl app.
  - by rewrite join3.
  - by rewrite join2.
Qed.

Lemma build_address_absent (o : option string) (zip_code : pyval) (country : string) :
  PyStr.opt_truthy o = false -> build_address o zip_code country = None.
Proof. intros [-> | ->]%opt_truthy_false; reflexivity. Qed.

Lemma build_address_truthy (o : option string) (zip_code : pyval) (country : string) :
  PyStr.opt_truthy o = true ->
  PyStr.opt_truthy (build_address o zip_code country) = true.
Proof.
  intros (cs & -> & Hcs)%opt_truthy_Some.
  rewrite build_address_nonempty by done. simpl.
  destruct cs as [|c cs]; [done |]. simpl.
  destruct (Ascii.eqb c ","); reflexivity.
Qed.

Lemma build_us_address_absent (city state : option string) (zip_code : pyval) :
  PyStr.opt_truthy city = false \/ PyStr.opt_truthy state = false ->
  build_us_address city state zip_code = None.
Proof.
  unfold build_us_address.
  destruct city as [[|c cs]|], state as [[|c' cs']|]; simpl;
    intros [? | ?]; congruence.
Qed.

Lemma build_us_address_present (c s : string) (zip_code : pyval) :
  c ≠ "" -> s ≠ "" ->
  build_us_address (Some c) (Some s) zip_code
  = Some (PyStr.strip c ++ ", " ++ PyStr.strip s ++ zip_part zip_code ++ ", USA").
Proof.
  intros Hc%truthy_nonempty Hs%truthy_nonempty.
  unfold build_us_address, zip_part. rewrite Hc, Hs. simpl negb. cbv iota.
  destruct (py_truthy zip_code); reflexivity.
Qed.

(** The classifier, one equation per rule. *)
Lemma classify_by_rule (r : row) :
  classify_and_build_addresses r =
    match applicable_rule r with
    | Rule1 =>
        if PyStr.opt_truthy (us_destination_address r)
        then (build_address (mexico_origin_token r) PyNone "Mexico", us_destination_address r)
        else (None, None)
    | Rule2 =>
        if PyStr.opt_truthy (us_origin_address r)
        then (us_origin_address r, build_address (mexico_dest_token r) PyNone "Mexico")
        else (None, None)
    | Rule3 =>
        (build_address (mexico_origin_token r) PyNone "Mexico",
         build_address (mexico_dest_token r) PyNone "Mexico")
    | Rule4 => (None, None)
    end.
Proof.
  unfold classify_and_build_addresses, applicable_rule, has_mexico_origin,
    has_mexico_dest, us_destination_address, us_origin_address,
    mexico_origin_token, mexico_dest_token.
  cbv zeta.
  destruct (PyStr.opt_truthy (norm (row_get r "Mexico Origin City and State"))) eqn:Ho;
    destruct (PyStr.opt_truthy (norm (row_get r "Mexico Dest City and State"))) eqn:Hd;
    simpl; try reflexivity.
  - destruct (PyStr.opt_truthy (build_us_address _ _ _)); reflexivity.
  - rewrite (build_address_truthy _ PyNone "Mexico" Hd).
    destruct (PyStr.opt_truthy (build_us_address _ _ _)); reflexivity.
Qed.
End AddressFacts.

(** ** AddressBuilder and LegClassifier *)

Section ClassifierClaims.
Variable repr_other : spec_float -> string.

#[local] Abbreviation norm := (norm repr_other).
#[local] Abbreviation py_str := (py_str repr_other).
#[local] Abbreviation build_address := (build_address repr_other).
#[local] Abbreviation build_us_address := (build_us_address repr_other).
#[local] Abbreviation classify_and_build_addresses :=
  (classify_and_build_addresses repr_other).
#[local] Abbreviation zip_part := (zip_part repr_other).
#[local] Abbreviation applicable_rule := (applicable_rule repr_other).
#[local] Abbreviation has_mexico_origin := (has_mexico_origin repr_other).
#[local] Abbreviation has_mexico_dest := (has_mexico_dest repr_other).
#[local] Abbreviation mexico_origin_token := (mexico_origin_token repr_other).
#[local] Abbreviation mexico_dest_token := (mexico_dest_token repr_other).
#[local] Abbreviation us_origin_address := (us_origin_address repr_other).
#[local] Abbreviation us_destination_address := (us_destination_address repr_other).

Lemma build_us_address_truthy (city state : option string) (zip_code : pyval) (b : string) :
  build_us_address city state zip_code = Some b -> PyStr.truthy b = true.
Proof.
  unfold build_us_address.
  destruct city as [c|], state as [s|]; try done.
  destruct (negb (PyStr.truthy c) || negb (PyStr.truthy s)); [done |].
  intros [= <-].
  destruct (py_truthy zip_code); simpl; destruct (PyStr.strip c); reflexivity.
Qed.

Lemma applicable_rule_inv (r : row) :
  match applicable_rule r with
  | Rule1 => has_mexico_origin r = true /\ has_mexico_dest r = false
  | Rule2 => has_mexico_origin r = false /\ has_mexico_dest r = true
  | Rule3 => has_mexico_origin r = true /\ has_mexico_dest r = true
  | Rule4 => has_mexico_origin r = false /\ has_mexico_dest r = false
  end.
Proof.
  unfold applicable_rule.
  destruct (has_mexico_origin r), (has_mexico_dest r); simpl; done.
Qed.

(** A present Mexico token always gives an address, of the form
    [CITY, ST, Mexico]. *)
Lemma mexico_address_of_token (o : option string) :
  PyStr.opt_truthy o = true ->
  exists cs, o = Some cs /\ cs ≠ "" /\
    build_address o PyNone "Mexico" = Some (PyStr.replace "," ", " cs ++ ", Mexico").
Proof.
  intros (cs & -> & Hcs)%opt_truthy_Some. exists cs. repeat split; [done |].
  by rewrite build_address_nonempty.
Qed.

(** The classifier never hands back half a pair, and never an empty
    address. *)
Lemma classify_pair_or_nothing (r : row) :
  classify_and_build_addresses r = (None, None) \/
  exists a b, classify_and_build_addresses r = (Some a, Some b)
              /\ PyStr.truthy a = true /\ PyStr.truthy b = true.
Proof.
  rewrite classify_by_rule.
  pose proof (applicable_rule_inv r) as Hr.
  destruct (applicable_rule r); destruct Hr as [Ho Hd].
  - destruct (us_destination_address r) as [b|] eqn:Hb; simpl; [| by left].
    pose proof (build_us_address_truthy _ _ _ _ Hb) as Hbt. rewrite Hbt.
    apply mexico_address_of_token in Ho as (cs & Hcs & Hne & Ha).
    right. eexists _, b. fold (mexico_origin_token r). rewrite Ha.
    repeat split; [| done].
    destruct cs as [|c cs]; [done |]. simpl. destruct (Ascii.eqb c ","); done.
  - destruct (us_origin_address r) as [b|] eqn:Hb; simpl; [| by left].
    pose proof (build_us_address_truthy _ _ _ _ Hb) as Hbt. rewrite Hbt.
    apply mexico_address_of_token in Hd as (cs & Hcs & Hne & Ha).
    right. eexists b, _. fold (mexico_dest_token r). rewrite Ha.
    repeat split; [done |].
    destruct cs as [|c cs]; [done |]. simpl. destruct (Ascii.eqb c ","); done.
  - apply mexico_address_of_token in Ho as (cs & Hcs & Hne & Ha).
    apply mexico_address_of_token in Hd as (cs' & Hcs' & Hne' & Ha').
    right. eexists _, _. fold (mexico_origin_token r) (mexico_dest_token r).
    rewrite Ha, Ha'. repeat split.
    + destruct cs as [|c cs]; [done |]. simpl. destruct (Ascii.eqb c ","); done.
    + destruct cs' as [|c cs']; [done |]. simpl. destruct (Ascii.eqb c ","); done.
  - by left.
Qed.

(** C3: exactly one of the four rules applies to a record, selected by
    the presence of the two normalised Mexico city/state fields alone
    ([rule_of]).  Rule 1 (Mexico origin only) yields the Mexico origin
    address and the U.S. destination address; rule 2 (Mexico destination
    only) yields the U.S. origin address and the Mexico destination
    address; rule 3 (both) always yields the two Mexico addresses; rule 4
    (neither) yields no pair.  In rules 1 and 2 the U.S. address is the
    one [build_us_address] gives for the record. *)
Theorem classify_four_rules (r : row) :
  (applicable_rule r = Rule1 ->
     forall b, us_destination_address r = Some b ->
     exists a, build_address (mexico_origin_token r) PyNone "Mexico" = Some a
               /\ classify_and_build_addresses r = (Some a, Some b))
  /\ (applicable_rule r = Rule2 ->
     forall b, us_origin_address r = Some b ->
     exists a, build_address (mexico_dest_token r) PyNone "Mexico" = Some a
               /\ classify_and_build_addresses r = (Some b, Some a))
  /\ (applicable_rule r = Rule3 ->
     exists a b, build_address (mexico_origin_token r) PyNone "Mexico" = Some a
                 /\ build_address (mexico_dest_token r) PyNone "Mexico" = Some b
                 /\ classify_and_build_addresses r = (Some a, Some b))
  /\ (applicable_rule r = Rule4 ->
     classify_and_build_addresses r = (None, None))
  /\ (forall r' : row,
     has_mexico_origin r' = has_mexico_origin r ->
     has_mexico_dest r' = has_mexico_dest r ->
     applicable_rule r' = applicable_rule r).
Proof.
  pose proof (applicable_rule_inv r) as Hinv.
  repeat split.
  - intros Hr b Hb. rewrite Hr in Hinv. destruct Hinv as [Ho _].
    apply mexico_address_of_token in Ho as (cs & _ & _ & Ha).
    eexists. split; [exact Ha |].
    rewrite classify_by_rule, Hr, Hb. simpl.
    rewrite (build_us_address_truthy _ _ _ _ Hb).
    fold (mexico_origin_token r). by rewrite Ha.
  - intros Hr b Hb. rewrite Hr in Hinv. destruct Hinv as [_ Hd].
    apply mexico_address_of_token in Hd as (cs & _ & _ & Ha).
    eexists. split; [exact Ha |].
    rewrite classify_by_rule, Hr, Hb. simpl.
    rewrite (build_us_address_truthy _ _ _ _ Hb).
    fold (mexico_dest_token r). by rewrite Ha.
  - intros Hr. rewrite Hr in Hinv. destruct Hinv as [Ho Hd].
    apply mexico_address_of_token in Ho as (cs & _ & _ & Ha).
    apply mexico_address_of_token in Hd as (cs' & _ & _ & Ha').
    eexists _, _. split; [exact Ha |]. split; [exact Ha' |].
    rewrite classify_by_rule, Hr.
    fold (mexico_origin_token r) (mexico_dest_token r). by rewrite Ha, Ha'.
  - intros Hr. by rewrite classify_by_rule, Hr.
  - intros r' Ho Hd. unfold applicable_rule. by rewrite Ho, Hd.
Qed.

(** C4: when rule 1 or rule 2 applies and the U.S. address it needs
    cannot be built (the normalised city or state is missing), the
    classifier returns what rule 4 returns, no pair at all, and the
    record's result is absent whatever the provider would answer: no
    lookup is made. *)
Theorem us_address_missing_no_pair (r : row) :
  (applicable_rule r = Rule1 /\
     (PyStr.opt_truthy (norm (row_get r "Destination City")) = false \/
      PyStr.opt_truthy (norm (row_get r "Destination State")) = false))
  \/ (applicable_rule r = Rule2 /\
     (PyStr.opt_truthy (norm (row_get r "Origin City")) = false \/
      PyStr.opt_truthy (norm (row_get r "Origin State")) = false)) ->
  classify_and_build_addresses r = (None, None)
  /\ forall key post idx, process_one repr_other key post idx r = Ok (idx, None).
Proof.
  intros H.
  assert (classify_and_build_addresses r = (None, None)) as Hc.
  { rewrite classify_by_rule.
    destruct H as [[-> Hm] | [-> Hm]].
    - unfold us_destination_address.
      by rewrite (build_us_address_absent _ _ _ _ Hm).
    - unfold us_origin_address.
      by rewrite (build_us_address_absent _ _ _ _ Hm). }
  split; [exact Hc |].
  intros key post idx. unfold process_one. by rewrite Hc.
Qed.

(** C5: for a non-empty city/state token the Mexico address is the token
    with a space put after every comma, then the postal code when one is
    given, then the literal ["Mexico"], joined by [", "]; a token that is
    null or empty once normalised (trimmed) gives no address.
    ["JUAREZ,NL"] gives ["JUAREZ, NL, Mexico"], and
    ["JUAREZ, NL, 32000, Mexico"] with the zip ["32000"]. *)
Theorem build_address_mexico (cs : string) (zip_code v : pyval) :
  (cs ≠ "" ->
     build_address (Some cs) zip_code "Mexico"
     = Some (PyStr.replace "," ", " cs ++ zip_part zip_code ++ ", Mexico"))
  /\ (PyStr.opt_truthy (norm v) = false ->
     build_address (norm v) zip_code "Mexico" = None)
  /\ build_address None zip_code "Mexico" = None
  /\ build_address (Some "") zip_code "Mexico" = None
  /\ build_address (norm (PyStr "   ")) zip_code "Mexico" = None
  /\ build_address (Some "JUAREZ,NL") PyNone "Mexico" = Some "JUAREZ, NL, Mexico"
  /\ build_address (Some "JUAREZ,NL") (PyStr "32000") "Mexico"
     = Some "JUAREZ, NL, 32000, Mexico".
Proof.
  repeat split.
  - apply build_address_nonempty.
  - apply build_address_absent.
Qed.

(** C9: whatever the record, a Mexico-side address in the classifier's
    pair is built with no postal code: it is the normalised token with a
    space after every comma, followed by [", Mexico"] (so
    ["CITY, ST, Mexico"] for a token ["CITY,ST"]), which is what
    [build_address] gives with its zip argument absent. *)
Theorem mexico_side_has_no_zip (r : row) (o d : string) :
  classify_and_build_addresses r = (Some o, Some d) ->
  (has_mexico_origin r = true ->
     exists cs, mexico_origin_token r = Some cs
                /\ build_address (Some cs) PyNone "Mexico" = Some o
                /\ o = PyStr.replace "," ", " cs ++ ", Mexico")
  /\ (has_mexico_dest r = true ->
     exists cs, mexico_dest_token r = Some cs
                /\ build_address (Some cs) PyNone "Mexico" = Some d
                /\ d = PyStr.replace "," ", " cs ++ ", Mexico").
Proof.
  intros Hc.
  pose proof (applicable_rule_inv r) as Hinv.
  rewrite classify_by_rule in Hc.
  split; intros Hp.
  - apply mexico_address_of_token in Hp as Hp'. destruct Hp' as (cs & Hcs & _ & Ha).
    exists cs. split; [exact Hcs |].
    fold (mexico_origin_token r) in Ha.
    destruct (applicable_rule r); destruct Hinv as [Ho Hd]; try congruence.
    + destruct (PyStr.opt_truthy (us_destination_address r)); [| done].
      rewrite Ha in Hc. injection Hc as <- _. by rewrite <- Hcs.
    + rewrite Ha in Hc. injection Hc as <- _. by rewrite <- Hcs.
  - apply mexico_address_of_token in Hp as Hp'. destruct Hp' as (cs & Hcs & _ & Ha).
    exists cs. split; [exact Hcs |].
    fold (mexico_dest_token r) in Ha.
    destruct (applicable_rule r); destruct Hinv as [Ho Hd]; try congruence.
    + destruct (PyStr.opt_truthy (us_origin_address r)); [| done].
      rewrite Ha in Hc. injection Hc as _ <-. by rewrite <- Hcs.
    + rewrite Ha in Hc. injection Hc as _ <-. by rewrite <- Hcs.
Qed.

(** C10: [norm] maps [None] and a float NaN to absent and every other
    value to its [str] rendering with the surrounding whitespace
    removed; so a zip read as the float [92101.0] enters the U.S. address
    as ["92101.0"]. *)
Theorem norm_renders_every_other_value (v : pyval) :
  norm PyNone = None
  /\ norm (PyFloat S754_nan) = None
  /\ (v ≠ PyNone -> v ≠ PyFloat S754_nan ->
      norm v = Some (PyStr.strip (py_str v)))
  /\ norm (PyFloat zip_92101) = Some "92101.0"
  /\ build_us_address (norm (PyStr " San Diego ")) (norm (PyStr "CA"))
       (of_opt (norm (PyFloat zip_92101)))
     = Some "San Diego, CA, 92101.0, USA"
  /\ classify_and_build_addresses
       {[ "Mexico Origin City and State" := PyStr "TIJUANA,BC";
          "Destination City" := PyStr "San Diego";
          "Destination State" := PyStr "CA";
          "Destination Zip" := PyFloat zip_92101 ]}
     = (Some "TIJUANA, BC, Mexico", Some "San Diego, CA, 92101.0, USA").
Proof.
  repeat split.
  intros Hnone Hnan. unfold norm.
  destruct v as [| | |x| |]; try done.
  destruct x; done.
Qed.
End ClassifierClaims.

Lemma classify_four_rules_witness :
  classify_and_build_addresses repr_unused row_tijuana
  = (Some "TIJUANA, BC, Mexico", Some "San Diego, CA, 92101, USA")
  /\ classify_and_build_addresses repr_unused row_mexico
     = (Some "JUAREZ, CH, Mexico", Some "MONTERREY, NL, Mexico")
  /\ classify_and_build_addresses repr_unused row_domestic = (None, None).
Proof.
  destruct (classify_four_rules repr_unused row_tijuana) as (H1 & _).
  destruct (classify_four_rules repr_unused row_mexico) as (_ & _ & H3 & _).
  destruct (classify_four_rules repr_unused row_domestic) as (_ & _ & _ & H4 & _).
  split; [| split].
  - destruct (H1 eq_refl _ eq_refl) as (a & Ha & Hc).
    vm_compute in Ha. injection Ha as <-. exact Hc.
  - destruct (H3 eq_refl) as (a & b & Ha & Hb & Hc).
    vm_compute in Ha, Hb. injection Ha as <-. injection Hb as <-. exact Hc.
  - exact (H4 eq_refl).
Defined.

Lemma us_address_missing_no_pair_witness :
  classify_and_build_addresses repr_unused row_no_state = (None, None)
  /\ forall key post idx, process_one repr_unused key post idx row_no_state = Ok (idx, None).
Proof.
  apply (us_address_missing_no_pair repr_unused row_no_state).
  left. split; [reflexivity | right; reflexivity].
Defined.

Lemma build_address_mexico_witness :
  build_address repr_unused (Some "CHIHUAHUA,CH") (PyInt 31000) "Mexico"
  = Some "CHIHUAHUA, CH, 31000, Mexico"
  /\ build_address repr_unused (norm repr_unused (PyStr "")) (PyInt 31000) "Mexico" = None.
Proof.
  destruct (build_address_mexico repr_unused "CHIHUAHUA,CH" (PyInt 31000) (PyStr ""))
    as (H1 & H2 & _).
  split; [apply H1; discriminate | apply H2; reflexivity].
Defined.

Lemma mexico_side_has_no_zip_witness :
  exists cs, mexico_origin_token repr_unused row_mexico = Some cs
             /\ build_address repr_unused (Some cs) PyNone "Mexico" = Some "JUAREZ, CH, Mexico"
             /\ "JUAREZ, CH, Mexico" = PyStr.replace "," ", " cs ++ ", Mexico".
Proof.
  destruct (mexico_side_has_no_zip repr_unused row_mexico
              "JUAREZ, CH, Mexico" "MONTERREY, NL, Mexico" eq_refl) as [Ho _].
  exact (Ho eq_refl).
Defined.

Lemma norm_renders_every_other_value_witness :
  norm repr_unused (PyInt 92101) = Some "92101"
  /\ norm repr_unused (PyStr "  El Paso ") = Some "El Paso"
  /\ norm repr_unused (PyBool true) = Some "True".
Proof.
  destruct (norm_renders_every_other_value repr_unused (PyInt 92101)) as (_ & _ & H1 & _).
  destruct (norm_renders_every_other_value repr_unused (PyStr "  El Paso ")) as (_ & _ & H2 & _).
  destruct (norm_renders_every_other_value repr_unused (PyBool true)) as (_ & _ & H3 & _).
  split; [| split]; [apply H1 | apply H2 | apply H3]; discriminate.
Defined.

(** ** DistanceClient *)

(** [round(x, 1)] on the exact binary value, ties to even:
    [round(0.25, 1) = 0.2], [round(0.75, 1) = 0.8], and, the doubles
    nearest to 0.35 and 0.45 lying below and above them,
    [round(0.35, 1) = 0.3] and [round(0.45, 1) = 0.5]; a small negative
    rounds to [-0.0] and an integer to itself. *)
Lemma round1_samples :
  PyFloat.round1 (PyFloat.of_ratio false 25 100) = PyFloat.of_ratio false 2 10
  /\ PyFloat.round1 (PyFloat.of_ratio false 75 100) = PyFloat.of_ratio false 8 10
  /\ PyFloat.round1 (PyFloat.of_ratio false 35 100) = PyFloat.of_ratio false 3 10
  /\ PyFloat.round1 (PyFloat.of_ratio false 45 100) = PyFloat.of_ratio false 5 10
  /\ PyFloat.round1 (PyFloat.of_ratio true 1 100) = S754_zero true
  /\ PyFloat.round1 (PyFloat.of_Z 7) = PyFloat.of_Z 7.
Proof. repeat split; vm_compute; reflexivity. Qed.

(** [str] of integers and of floats that are integers. *)
Lemma str_samples :
  py_str repr_unused (PyInt (-42)) = "-42"
  /\ py_str repr_unused (PyFloat (PyFloat.of_Z 92101)) = "92101.0"
  /\ py_str repr_unused (PyFloat (PyFloat.of_Z (-3))) = "-3.0"
  /\ py_str repr_unused (PyFloat (S754_zero false)) = "0.0".
Proof. repeat split; vm_compute; reflexivity. Qed.

Section ClientClaims.
Variable post : string -> string -> string -> http_result.

Lemma lookup_with_key (key origin dest : string) :
  key ≠ "" ->
  google_route_distance_miles (Some key) post origin dest
  = read_response (post key origin dest).
Proof.
  intros Hk%truthy_nonempty. unfold google_route_distance_miles. by rewrite Hk.
Qed.

(** The failures the client turns into an absent distance: no usable
    key, a status other than 200, no [routes] entry or an empty one, a
    first route with no [distanceMeters] or a null one. *)
Lemma lookup_failures_return_absent (origin dest : string) :
  google_route_distance_miles None post origin dest = Ok None
  /\ google_route_distance_miles (Some "") post origin dest = Ok None
  /\ (forall status body, status ≠ 200%Z ->
        read_response (Response status body) = Ok None)
  /\ (forall fields, Json.lookup fields "routes" = None ->
        read_response (Response 200 (Some (JObj fields))) = Ok None)
  /\ (forall fields, Json.lookup fields "routes" = Some (JArr []) ->
        read_response (Response 200 (Some (JObj fields))) = Ok None)
  /\ (forall fields rfields more,
        Json.lookup fields "routes" = Some (JArr (JObj rfields :: more)) ->
        Json.lookup rfields "distanceMeters" = None \/
        Json.lookup rfields "distanceMeters" = Some JNull ->
        read_response (Response 200 (Some (JObj fields))) = Ok None).
Proof.
  repeat split.
  - intros status body Hs. unfold read_response.
    by destruct (Z.eqb_spec status 200).
  - intros fields Hf. unfold read_response. simpl. by rewrite Hf.
  - intros fields Hf. unfold read_response. simpl. by rewrite Hf.
  - intros fields rfields more Hf Hm. unfold read_response. simpl.
    rewrite Hf. simpl. by destruct Hm as [-> | ->].
Qed.

(** C6: when the provider answers 200 with a first route whose
    [distanceMeters] is the integer [m], the lookup returns
    [round(m * 0.000621371, 1)], the product and the rounding being those
    of binary64 floats; for [m = 160934] that is [100.0]. *)
Theorem meters_to_rounded_miles
    (key origin dest : string) (fields rfields : list (string * json))
    (more : list json) (m : Z) (x : spec_float) :
  key ≠ "" ->
  post key origin dest = Response 200 (Some (JObj fields)) ->
  Json.lookup fields "routes" = Some (JArr (JObj rfields :: more)) ->
  Json.lookup rfields "distanceMeters" = Some (JInt m) ->
  int_to_float m = Ok x ->
  google_route_distance_miles (Some key) post origin dest
  = Ok (Some (PyFloat.round1 (PyFloat.mul x MILES_PER_METER)))
  /\ (m = 160934%Z ->
      google_route_distance_miles (Some key) post origin dest
      = Ok (Some (PyFloat.of_Z 100))).
Proof.
  intros Hk Hp Hf Hr Hx.
  assert (google_route_distance_miles (Some key) post origin dest
          = Ok (Some (PyFloat.round1 (PyFloat.mul x MILES_PER_METER)))) as Hg.
  { rewrite lookup_with_key by done. rewrite Hp. unfold read_response. simpl.
    rewrite Hf. simpl. rewrite Hr. simpl. by rewrite Hx. }
  split; [exact Hg |].
  intros ->. rewrite Hg. vm_compute in Hx. injection Hx as <-.
  vm_compute. reflexivity.
Qed.
End ClientClaims.

Lemma meters_to_rounded_miles_witness :
  google_route_distance_miles (Some "k") post_160934
    "TIJUANA, BC, Mexico" "San Diego, CA, 92101, USA"
  = Ok (Some (PyFloat.of_Z 100)).
Proof.
  refine (proj2 (meters_to_rounded_miles post_160934 "k" _ _ _ _ [] 160934
                   (PyFloat.of_Z 160934) _ eq_refl eq_refl eq_refl eq_refl) eq_refl).
  discriminate.
Defined.

(** C2, at the input where it fails: with the provider unreachable the
    lookup raises instead of returning absent, and the exception aborts
    the whole run, also for the records that need no lookup. *)
Lemma unreachable_provider_aborts_run :
  google_route_distance_miles (Some "k") post_unreachable
    "JUAREZ, CH, Mexico" "MONTERREY, NL, Mexico" = Raise TransportError
  /\ calculate_mileage repr_unused (Some "k") post_unreachable
       [row_domestic; row_mexico] = Raise TransportError.
Proof. split; vm_compute; reflexivity. Qed.

(** ** EnrichmentPipeline: the run under the semaphore *)

Section PoolFacts.
Variable repr_other : spec_float -> string.
Variable GOOGLE_API_KEY : option string.
Variable post : string -> string -> string -> http_result.

#[local] Abbreviation classify := (classify_and_build_addresses repr_other).
#[local] Abbreviation distance_for := (distance_for repr_other GOOGLE_API_KEY post).
#[local] Abbreviation process_one := (process_one repr_other GOOGLE_API_KEY post).
#[local] Abbreviation key_usable := (key_usable GOOGLE_API_KEY).
#[local] Abbreviation final_task := (final_task repr_other GOOGLE_API_KEY post).
#[local] Abbreviation task_agrees := (task_agrees repr_other GOOGLE_API_KEY post).
#[local] Abbreviation step := (step repr_other GOOGLE_API_KEY post).
#[local] Abbreviation reachable := (reachable repr_other GOOGLE_API_KEY post).
#[local] Abbreviation pool_inv := (pool_inv repr_other GOOGLE_API_KEY post).

Lemma count_insert (p : task -> bool) (ts : list task) (i : nat) (t t' : task) :
  ts !! i = Some t ->
  count p (<[i:=t']> ts) + (if p t then 1 else 0)
  = count p ts + (if p t' then 1 else 0).
Proof.
  revert i. induction ts as [|a ts IH]; intros [|i] Hi; simplify_eq/=.
  - lia.
  - specialize (IH _ Hi). lia.
Qed.

Lemma count_replicate_waiting (p : task -> bool) (n : nat) :
  p Waiting = false -> count p (replicate n Waiting) = 0.
Proof. intros Hp. induction n as [|n IH]; simpl; [done |]. by rewrite Hp, IH. Qed.

Lemma count_in_flight_le (ts : list task) :
  count in_flight ts <= count holds_slot ts.
Proof. induction ts as [|[] ts IH]; simpl; lia. Qed.

Lemma count_finished (ts : list task) :
  forallb finished_task ts = true -> count holds_slot ts = 0.
Proof.
  induction ts as [|t ts IH]; simpl; [done |].
  intros [Ht Hts]%andb_true_iff. rewrite (IH Hts). by destruct t.
Qed.

(** What a record's result is, by the way its task goes. *)
Lemma distance_for_no_leg (r : row) (o d : option string) :
  classify r = (o, d) ->
  negb (PyStr.opt_truthy o) || negb (PyStr.opt_truthy d) = true ->
  distance_for r = Ok None.
Proof.
  intros Hc Hn. unfold distance_for, process_one. rewrite Hc.
  destruct o as [o|], d as [d|]; try done.
  simpl in Hn. by rewrite Hn.
Qed.

Lemma distance_for_leg (r : row) (o d : string) :
  classify r = (Some o, Some d) ->
  PyStr.truthy o && PyStr.truthy d = true ->
  distance_for r =
    match key_usable with
    | None => Ok None
    | Some key => read_response (post key o d)
    end.
Proof.
  intros Hc [Ho Hd]%andb_true_iff.
  unfold distance_for, process_one, google_route_distance_miles, key_usable.
  rewrite Hc, Ho, Hd. simpl.
  destruct GOOGLE_API_KEY as [key|]; [| done].
  destruct (PyStr.truthy key); simpl; [| done].
  by destruct (read_response (post key o d)).
Qed.

Lemma process_one_tag (idx : nat) (r : row) :
  process_one idx r = miles ← distance_for r; Ok (idx, miles).
Proof.
  unfold distance_for, process_one.
  destruct (classify r) as [[o|] [d|]]; try done.
  destruct (negb (PyStr.truthy o) || negb (PyStr.truthy d)); [done |].
  by destruct (google_route_distance_miles GOOGLE_API_KEY post o d).
Qed.

Lemma pool_inv_init (rows : list row) : pool_inv rows (init rows).
Proof.
  split; [| split]; simpl.
  - by rewrite count_replicate_waiting.
  - by rewrite length_replicate.
  - intros i r t _ [-> _]%lookup_replicate. exact I.
Qed.

Lemma task_agrees_insert (rows : list row) (ts : list task) (i : nat) (t' : task) :
  (forall j r u, rows !! j = Some r -> ts !! j = Some u -> task_agrees r u) ->
  (forall r, rows !! i = Some r -> task_agrees r t') ->
  forall j r u, rows !! j = Some r -> <[i:=t']> ts !! j = Some u -> task_agrees r u.
Proof.
  intros Hall Hnew j r u Hr Hu.
  apply list_lookup_insert_Some in Hu as [(-> & <- & _) | (_ & Hu)]; eauto.
Qed.

Lemma pool_inv_step (rows : list row) (st st' : pool) :
  pool_inv rows st -> step rows st st' -> pool_inv rows st'.
Proof.
  intros (Hsem & Hlen & Hfit) Hstep.
  destruct Hstep as
    [ i n ts Hi
    | i n ts r o d Hi Hr Hc Hn
    | i n ts r o d Hi Hr Hc Ht Hk
    | i n ts r o d key Hi Hr Hc Ht Hk
    | i n ts o d key miles Hi Hk Hresp
    | i n ts o d key e Hi Hk Hresp ];
    unfold pool_inv; simpl in *;
    (split; [| split; [by rewrite length_insert |
                       apply task_agrees_insert; [exact Hfit |]]]).
  - pose proof (count_insert holds_slot ts i _ Holding Hi). simpl in *. lia.
  - done.
  - pose proof (count_insert holds_slot ts i _ (Returned None) Hi). simpl in *. lia.
  - intros r' Hr'. simplify_eq. simpl. unfold final_task.
    by erewrite distance_for_no_leg.
  - pose proof (count_insert holds_slot ts i _ (Returned None) Hi). simpl in *. lia.
  - intros r' Hr'. simplify_eq. simpl. unfold final_task.
    erewrite distance_for_leg by eassumption. by rewrite Hk.
  - pose proof (count_insert holds_slot ts i _ (InFlight o d) Hi). simpl in *. lia.
  - intros r' Hr'. simplify_eq. simpl. eauto.
  - pose proof (count_insert holds_slot ts i _ (Returned miles) Hi). simpl in *. lia.
  - intros r' Hr'. simpl.
    destruct (Hfit i r' _ Hr' Hi) as (key' & Hk' & Hc & Ht).
    unfold final_task. erewrite distance_for_leg by eassumption.
    rewrite Hk. by rewrite Hresp.
  - pose proof (count_insert holds_slot ts i _ (Failed e) Hi). simpl in *. lia.
  - intros r' Hr'. simpl.
    destruct (Hfit i r' _ Hr' Hi) as (key' & Hk' & Hc & Ht).
    unfold final_task. erewrite distance_for_leg by eassumption.
    rewrite Hk. by rewrite Hresp.
Qed.

Lemma pool_inv_reachable (rows : list row) (st : pool) :
  reachable rows st -> pool_inv rows st.
Proof.
  unfold reachable. revert st.
  apply (rtc_ind_r (pool_inv rows) (init rows)); [apply pool_inv_init |].
  intros st st' _ Hstep IH. by eapply pool_inv_step.
Qed.

(** What one step does to the task at [i]. *)
Lemma step_at (rows : list row) (st st' : pool) (i : nat) (t t' : task) :
  step rows st st' ->
  pool_tasks st !! i = Some t -> pool_tasks st' !! i = Some t' ->
  (t' = t)
  \/ (t = Waiting /\ t' = Holding /\ sem_value st = S (sem_value st'))
  \/ (t = Holding /\ (exists o d, t' = InFlight o d) /\ sem_value st' = sem_value st)
  \/ (holds_slot t = true /\ finished_task t' = true
      /\ sem_value st' = S (sem_value st)).
Proof.
  intros Hstep Ht Ht'.
  destruct Hstep as
    [ j n ts Hj
    | j n ts r o d Hj Hr Hc Hn
    | j n ts r o d Hj Hr Hc Htr Hk
    | j n ts r o d key Hj Hr Hc Htr Hk
    | j n ts o d key miles Hj Hk Hresp
    | j n ts o d key e Hj Hk Hresp ];
    simpl in *;
    apply list_lookup_insert_Some in Ht' as [(-> & <- & _) | (_ & Ht')];
    simplify_eq; eauto 10.
Qed.

(** C7: in every state a run can reach, for any number of records, at
    most 20 lookups are in flight; free slots and held slots always add up
    to 20; a task leaves the wait only by taking a slot, which needs one
    to be free; a network call is issued only by a task that holds a slot;
    and every way out of the guarded block, by return or by exception,
    gives the slot back, so that a finished run leaves all 20 free. *)
Theorem at_most_twenty_in_flight (rows : list row) (st : pool) :
  reachable rows st ->
  count in_flight (pool_tasks st) <= 20
  /\ sem_value st + count holds_slot (pool_tasks st) = 20
  /\ (forall st' i,
        step rows st st' ->
        pool_tasks st !! i = Some Waiting ->
        pool_tasks st' !! i ≠ Some Waiting ->
        count holds_slot (pool_tasks st) < 20
        /\ pool_tasks st' !! i = Some Holding)
  /\ (forall st' i o d,
        step rows st st' ->
        pool_tasks st' !! i = Some (InFlight o d) ->
        pool_tasks st !! i = Some Holding
        \/ pool_tasks st !! i = Some (InFlight o d))
  /\ (forall st' i t t',
        step rows st st' ->
        pool_tasks st !! i = Some t -> holds_slot t = true ->
        pool_tasks st' !! i = Some t' -> holds_slot t' = false ->
        finished_task t' = true /\ sem_value st' = S (sem_value st))
  /\ (finished st = true -> sem_value st = 20).
Proof.
  intros Hreach.
  destruct (pool_inv_reachable rows st Hreach) as (Hsem & Hlen & Hfit).
  change SEM_LIMIT with 20 in Hsem.
  pose proof (count_in_flight_le (pool_tasks st)) as Hle.
  split; [lia |]. split; [exact Hsem |].
  split; [| split; [| split]].
  - intros st' i Hstep Hw Hnw.
    assert (i < length (pool_tasks st')) as Hi.
    { apply lookup_lt_Some in Hw.
      destruct Hstep; simpl in *; by rewrite length_insert. }
    apply lookup_lt_is_Some in Hi as [t' Ht'].
    destruct (step_at rows st st' i _ _ Hstep Hw Ht')
      as [-> | [(_ & -> & Hs) | [(? & _) | (? & _)]]]; try done.
    split; [lia | done].
  - intros st' i o d Hstep Hf.
    assert (i < length (pool_tasks st)) as Hi.
    { apply lookup_lt_Some in Hf.
      destruct Hstep; simpl in *; by rewrite length_insert in Hf. }
    apply lookup_lt_is_Some in Hi as [t Ht].
    destruct (step_at rows st st' i _ _ Hstep Ht Hf)
      as [<- | [(_ & ? & _) | [(-> & _) | (_ & ? & _)]]]; try done; auto.
  - intros st' i t t' Hstep Ht Hh Ht' Hh'.
    destruct (step_at rows st st' i _ _ Hstep Ht Ht')
      as [-> | [(_ & -> & _) | [(_ & (o & d & ->) & _) | (_ & ? & ?)]]];
      try done; congruence.
  - intros Hfin. unfold finished in Hfin.
    rewrite (count_finished _ Hfin) in Hsem. lia.
Qed.

(** *** The sequential reading: [gather] and the slot array *)

#[local] Abbreviation miles_of := (miles_of repr_other GOOGLE_API_KEY post).
#[local] Abbreviation tagged_results := (tagged_results repr_other GOOGLE_API_KEY post).
#[local] Abbreviation tasks_of := (tasks_of repr_other GOOGLE_API_KEY post).
#[local] Abbreviation calculate_mileage :=
  (calculate_mileage repr_other GOOGLE_API_KEY post).

Lemma distance_for_miles_of (r : row) :
  returns (distance_for r) -> distance_for r = Ok (miles_of r).
Proof. intros [v Hv]. unfold miles_of. by rewrite Hv. Qed.

Lemma gather_from (rows : list row) (k : nat) :
  (forall r, r ∈ rows -> returns (distance_for r)) ->
  gather (imap (fun i => process_one (k + i)) rows)
  = Ok (imap (fun i r => (k + i, miles_of r)) rows).
Proof.
  revert k. induction rows as [|r rows IH]; intros k Hret; [done |].
  rewrite !imap_cons. simpl.
  rewrite process_one_tag, (distance_for_miles_of r) by (apply Hret; left).
  simpl.
  rewrite (imap_ext _ (fun i => process_one (S k + i))), IH.
  - cbn. do 2 f_equal.
    apply imap_ext. intros i x _. simpl. f_equal. lia.
  - intros r' Hr'. apply Hret. by right.
  - intros i x _. simpl. f_equal. lia.
Qed.

Lemma gather_tasks (rows : list row) :
  (forall r, r ∈ rows -> returns (distance_for r)) ->
  gather (tasks_of rows) = Ok (tagged_results rows).
Proof. intros Hret. exact (gather_from rows 0 Hret). Qed.

Lemma gather_raises (rows : list row) (k : nat) (r : row) (e : exn) :
  r ∈ rows -> distance_for r = Raise e ->
  exists e', gather (imap (fun i => process_one (k + i)) rows) = Raise e'.
Proof.
  revert k. induction rows as [|r0 rows IH]; intros k Hin Hr; [by apply elem_of_nil in Hin |].
  rewrite imap_cons. simpl. rewrite process_one_tag.
  destruct (distance_for r0) as [v|e0] eqn:Hr0; simpl; [| eauto].
  apply elem_of_cons in Hin as [-> | Hin]; [congruence |].
  destruct (IH (S k) Hin Hr) as [e' He'].
  rewrite (imap_ext _ (fun i => process_one (S k + i))).
  - rewrite He'. eauto.
  - intros i x _. simpl. f_equal. lia.
Qed.

Lemma tagged_results_lookup (rows : list row) (i : nat) :
  tagged_results rows !! i = (fun r => (i, miles_of r)) <$> rows !! i.
Proof. unfold tagged_results. by rewrite list_lookup_imap. Qed.

Lemma tagged_results_tags (rows : list row) :
  (tagged_results rows).*1 = seq 0 (length rows).
Proof.
  apply list_eq. intros i. rewrite list_lookup_fmap, tagged_results_lookup.
  destruct (rows !! i) as [r|] eqn:Hr; simpl.
  - symmetry. apply lookup_seq. split; [done |]. by eapply lookup_lt_Some.
  - symmetry. apply lookup_seq_ge. by apply lookup_ge_None.
Qed.

(** Writing tagged results into the slots, whatever their order: with
    tags in range and no tag twice, every write succeeds, every tagged
    slot holds its value and the others are untouched. *)
Lemma store_results_spec (results : list (nat * option spec_float))
    (slots : list (option spec_float)) :
  NoDup results.*1 ->
  (forall idx v, (idx, v) ∈ results -> idx < length slots) ->
  exists out, store_results slots results = Ok out
    /\ length out = length slots
    /\ (forall idx v, (idx, v) ∈ results -> out !! idx = Some v)
    /\ (forall i, i ∉ results.*1 -> out !! i = slots !! i).
Proof.
  revert slots. induction results as [|[idx v] rest IH]; intros slots Hnd Hlt.
  - exists slots. split; [done |]. split; [done |]. split; [| done].
    intros idx v Hin. by apply elem_of_nil in Hin.
  - simpl in Hnd. apply NoDup_cons in Hnd as [Hfresh Hnd].
    assert (idx < length slots) as Hidx by (apply (Hlt idx v); left).
    destruct (IH (<[idx:=v]> slots) Hnd) as (out & Hout & Hlen & Hin & Hout').
    { intros j w Hj. rewrite length_insert. apply (Hlt j w). by right. }
    exists out. simpl. unfold set_item. rewrite decide_True by done. simpl.
    rewrite length_insert in Hlen.
    split; [done |]. split; [done |]. split.
    + intros j w [[= -> ->] | Hj]%elem_of_cons; [| by apply Hin].
      rewrite (Hout' _ Hfresh). by apply list_lookup_insert_eq.
    + intros i [Hne Hi]%not_elem_of_cons.
      rewrite (Hout' _ Hi). by apply list_lookup_insert_ne.
Qed.

(** The tagged results of a run, taken in any order, fill the slots with
    the records' values in record order. *)
Lemma store_tagged_any_order (rows : list row)
    (results : list (nat * option spec_float)) :
  results ≡ₚ tagged_results rows ->
  store_results (replicate (length rows) None) results = Ok (miles_of <$> rows).
Proof.
  intros Hperm.
  assert (forall idx v, (idx, v) ∈ results <-> exists r, rows !! idx = Some r /\ v = miles_of r)
    as Hmem.
  { intros idx v. rewrite Hperm, list_elem_of_lookup. split.
    - intros [i Hi]. rewrite tagged_results_lookup in Hi.
      destruct (rows !! i) as [r|] eqn:Hr; simplify_eq/=. eauto.
    - intros (r & Hr & ->). exists idx. by rewrite tagged_results_lookup, Hr. }
  destruct (store_results_spec results (replicate (length rows) None))
    as (out & Hout & Hlen & Hin & _).
  { rewrite Hperm, tagged_results_tags. apply NoDup_seq. }
  { intros idx v (r & Hr & _)%Hmem. rewrite length_replicate. by eapply lookup_lt_Some. }
  rewrite Hout. f_equal. rewrite length_replicate in Hlen.
  apply list_eq. intros i. rewrite list_lookup_fmap.
  destruct (rows !! i) as [r|] eqn:Hr; simpl.
  - apply Hin, Hmem. eauto.
  - apply lookup_ge_None. rewrite Hlen. by apply lookup_ge_None.
Qed.

(** When the lookup of every record returns (a distance or absent),
    [gather] yields one tagged result per record, tagged 0, 1, ... in
    record order, and the pipeline returns a column of exactly the length
    of the input whose entry [i] is the value computed for record [i];
    the column is the same in whatever order the tagged results are
    written into the slots. *)
Theorem output_matches_input_order (rows : list row) :
  (forall r, r ∈ rows -> returns (distance_for r)) ->
  exists results out,
    gather (tasks_of rows) = Ok results
    /\ length (tasks_of rows) = length rows
    /\ results.*1 = seq 0 (length rows)
    /\ calculate_mileage rows = Ok out
    /\ length out = length rows
    /\ (forall i r, rows !! i = Some r ->
          exists v, distance_for r = Ok v /\ out !! i = Some v)
    /\ (forall results', results' ≡ₚ results ->
          store_results (replicate (length rows) None) results' = Ok out).
Proof.
  intros Hret.
  exists (tagged_results rows), (miles_of <$> rows).
  pose proof (gather_tasks rows Hret) as Hg.
  split; [exact Hg |].
  split; [apply length_imap |].
  split; [apply tagged_results_tags |].
  split.
  { unfold calculate_mileage. rewrite Hg. cbn.
    by apply store_tagged_any_order. }
  split; [by rewrite length_fmap |].
  split.
  - intros i r Hr. exists (miles_of r). split.
    + apply distance_for_miles_of, Hret. by eapply list_elem_of_lookup_2.
    + by rewrite list_lookup_fmap, Hr.
  - intros results' Hperm. by apply store_tagged_any_order.
Qed.

(** *** Runs to the end *)

Lemma final_task_no_leg (r : row) :
  classify r = (None, None) -> final_task r = Returned None.
Proof.
  intros Hc. unfold final_task. by rewrite (distance_for_no_leg r None None Hc).
Qed.

(** One task taken from the wait to its end while the others stand
    still: take a slot, classify, call the provider when there is a pair
    and a key, give the slot back. *)
Lemma run_one_task (rows : list row) (l1 rest : list task) (r : row) :
  rows !! length l1 = Some r ->
  rtc (step rows) (Pool SEM_LIMIT (l1 ++ Waiting :: rest))
                  (Pool SEM_LIMIT (l1 ++ final_task r :: rest)).
Proof.
  intros Hr.
  assert (forall t t', <[length l1:=t']> (l1 ++ t :: rest)%list = (l1 ++ t' :: rest)%list) as Hins.
  { intros t t'. by rewrite <- (Nat.add_0_r (length l1)), insert_app_r. }
  assert (forall t, (l1 ++ t :: rest)%list !! length l1 = Some t) as Hlook.
  { intros t. by apply list_lookup_middle. }
  change SEM_LIMIT with (S 19).
  apply (rtc_l _ _ (Pool 19 (l1 ++ Holding :: rest))).
  { rewrite <- (Hins Waiting Holding). apply step_acquire, Hlook. }
  destruct (classify_pair_or_nothing repr_other r)
    as [Hc | (a & b & Hc & Ha & Hb)].
  - apply rtc_once. rewrite (final_task_no_leg r Hc).
    rewrite <- (Hins Holding (Returned None)).
    by eapply step_no_leg; [apply Hlook | exact Hr | exact Hc |].
  - assert (PyStr.truthy a && PyStr.truthy b = true) as Hab by by rewrite Ha, Hb.
    unfold final_task. rewrite (distance_for_leg r a b Hc Hab).
    destruct key_usable as [key|] eqn:Hk.
    + apply (rtc_l _ _ (Pool 19 (l1 ++ InFlight a b :: rest))).
      { rewrite <- (Hins Holding (InFlight a b)).
        by eapply step_post; [apply Hlook | exact Hr | exact Hc | exact Hab | exact Hk]. }
      apply rtc_once.
      destruct (read_response (post key a b)) as [miles|e] eqn:Hresp.
      * rewrite <- (Hins (InFlight a b) (Returned miles)).
        by eapply step_response; [apply Hlook | exact Hk | exact Hresp].
      * rewrite <- (Hins (InFlight a b) (Failed e)).
        by eapply step_raise; [apply Hlook | exact Hk | exact Hresp].
    + apply rtc_once. rewrite <- (Hins Holding (Returned None)).
      by eapply step_no_key; [apply Hlook | exact Hr | exact Hc | exact Hab | exact Hk].
Qed.

Lemma run_prefix (rows : list row) (k : nat) :
  k <= length rows ->
  reachable rows
    (Pool SEM_LIMIT ((final_task <$> take k rows) ++ replicate (length rows - k) Waiting)).
Proof.
  induction k as [|k IH]; intros Hk.
  - rewrite take_0, Nat.sub_0_r. apply rtc_refl.
  - destruct (lookup_lt_is_Some_2 rows k) as [r Hr]; [lia |].
    unfold reachable. etrans; [apply IH; lia |].
    rewrite (take_S_r _ _ _ Hr), fmap_app, <- app_assoc. simpl.
    replace (length rows - k) with (S (length rows - S k)) by lia. simpl.
    apply run_one_task.
    rewrite length_fmap, length_take, Nat.min_l by lia. exact Hr.
Qed.

(** Every run can be taken to its end: the schedule that serves the
    records one after the other reaches the state in which every task has
    ended, with all slots free. *)
Lemma run_to_end (rows : list row) :
  reachable rows (Pool SEM_LIMIT (final_task <$> rows)).
Proof.
  pose proof (run_prefix rows (length rows) (le_n _)) as H.
  by rewrite firstn_all, Nat.sub_diag, app_nil_r in H.
Qed.

(** *** How a run ends *)

Lemma calculate_mileage_returns (rows : list row) :
  (forall r, r ∈ rows -> returns (distance_for r)) ->
  calculate_mileage rows = Ok (miles_of <$> rows).
Proof.
  intros Hret. unfold calculate_mileage. rewrite (gather_tasks rows Hret). cbn.
  by apply store_tagged_any_order.
Qed.

Lemma calculate_mileage_raises (rows : list row) (r : row) (e : exn) :
  r ∈ rows -> distance_for r = Raise e ->
  exists e', calculate_mileage rows = Raise e'.
Proof.
  intros Hin Hr. destruct (gather_raises rows 0 r e Hin Hr) as [e' He'].
  exists e'. unfold calculate_mileage.
  change (tasks_of rows) with (imap (fun i => process_one (0 + i)) rows).
  by rewrite He'.
Qed.

Lemma gathered_returned (ts : list task) (k : nat)
    (results : list (nat * option spec_float)) :
  gathered k ts = Some results ->
  forall i t, ts !! i = Some t -> exists miles, t = Returned miles.
Proof.
  revert k results. induction ts as [|t0 ts IH]; intros k results Hg i t Hi; [done |].
  destruct t0; try done. simpl in Hg.
  destruct (gathered (S k) ts) as [rest|] eqn:Hrest; [| done].
  destruct i as [|i]; simplify_eq/=; eauto.
Qed.

Lemma gathered_final (rows : list row) (k : nat) :
  (forall r, r ∈ rows -> returns (distance_for r)) ->
  gathered k (final_task <$> rows)
  = Some (imap (fun i r => (k + i, miles_of r)) rows).
Proof.
  revert k. induction rows as [|r rows IH]; intros k Hret; [done |].
  rewrite fmap_cons, imap_cons. unfold final_task at 1.
  rewrite (distance_for_miles_of r) by (apply Hret; left). simpl.
  rewrite IH by (intros r' Hr'; apply Hret; by right). simpl.
  do 2 f_equal; [f_equal; lia |].
  apply imap_ext. intros i x _. simpl. f_equal. lia.
Qed.

(** A run that has ended, read against the records: it completed with
    the column of the records' values, every lookup having returned, or it
    was aborted because the lookup of some record raises. *)
Lemma run_outcome_spec (rows : list row) (st : pool) :
  reachable rows st ->
  match run_outcome st with
  | Running => True
  | Aborted => exists r e, r ∈ rows /\ distance_for r = Raise e
  | Completed out =>
      pool_tasks st = final_task <$> rows
      /\ (forall r, r ∈ rows -> returns (distance_for r))
      /\ out = miles_of <$> rows
  end.
Proof.
  intros Hreach.
  destruct (pool_inv_reachable rows st Hreach) as (_ & Hlen & Hfit).
  unfold run_outcome.
  destruct (existsb failed_task (pool_tasks st)) eqn:Hfail.
  { apply existsb_exists in Hfail as (t & Hin & Ht).
    apply list_elem_of_In, list_elem_of_lookup in Hin as [i Hi].
    destruct t as [| | | |e]; try done.
    destruct (lookup_lt_is_Some_2 rows i) as [r Hr].
    { rewrite <- Hlen. by eapply lookup_lt_Some. }
    specialize (Hfit i r _ Hr Hi). simpl in Hfit. unfold final_task in Hfit.
    exists r, e. split; [by eapply list_elem_of_lookup_2 |].
    destruct (distance_for r); congruence. }
  destruct (gathered 0 (pool_tasks st)) as [results|] eqn:Hg; [| done].
  pose proof (gathered_returned _ _ _ Hg) as Hall.
  assert (pool_tasks st = final_task <$> rows) as Hts.
  { apply list_eq. intros i. rewrite list_lookup_fmap.
    destruct (rows !! i) as [r|] eqn:Hr; simpl.
    - destruct (lookup_lt_is_Some_2 (pool_tasks st) i) as [t Ht].
      { rewrite Hlen. by eapply lookup_lt_Some. }
      rewrite Ht. f_equal.
      destruct (Hall i t Ht) as [miles ->]. exact (Hfit i r _ Hr Ht).
    - apply lookup_ge_None. rewrite Hlen. by apply lookup_ge_None. }
  assert (forall r, r ∈ rows -> returns (distance_for r)) as Hret.
  { intros r [i Hr]%list_elem_of_lookup.
    assert (pool_tasks st !! i = Some (final_task r)) as Ht
      by by rewrite Hts, list_lookup_fmap, Hr.
    destruct (Hall i _ Ht) as [miles Hm]. unfold final_task in Hm.
    destruct (distance_for r) as [v|e]; [by exists v | done]. }
  rewrite Hts, (gathered_final rows 0 Hret) in Hg. injection Hg as <-.
  rewrite Hlen.
  pose proof (store_tagged_any_order rows (tagged_results rows) (reflexivity _)) as Hst.
  unfold tagged_results in Hst. by rewrite Hst.
Qed.

(** C8: two runs of the pipeline over the same records with the same
    provider answers, however their tasks are interleaved, end alike:
    both complete with the same column, or both are aborted.  The column
    is the one the sequential reading [calculate_mileage] computes, and a
    run to the end always exists. *)
Theorem run_outcome_deterministic (rows : list row) (st1 st2 : pool) :
  reachable rows st1 -> reachable rows st2 ->
  run_outcome st1 ≠ Running -> run_outcome st2 ≠ Running ->
  run_outcome st1 = run_outcome st2
  /\ (forall out, run_outcome st1 = Completed out -> calculate_mileage rows = Ok out)
  /\ (run_outcome st1 = Aborted -> exists e, calculate_mileage rows = Raise e)
  /\ (exists st, reachable rows st /\ finished st = true /\ run_outcome st ≠ Running).
Proof.
  intros H1 H2 Hn1 Hn2.
  pose proof (run_outcome_spec rows st1 H1) as Hs1.
  pose proof (run_outcome_spec rows st2 H2) as Hs2.
  split; [| split; [| split]].
  - destruct (run_outcome st1) as [| |out1], (run_outcome st2) as [| |out2];
      try done.
    + destruct Hs1 as (r & e & Hin & Hr), Hs2 as (_ & Hret & _).
      destruct (Hret r Hin) as [v Hv]. congruence.
    + destruct Hs2 as (r & e & Hin & Hr), Hs1 as (_ & Hret & _).
      destruct (Hret r Hin) as [v Hv]. congruence.
    + destruct Hs1 as (_ & _ & ->), Hs2 as (_ & _ & ->). done.
  - intros out Hout. rewrite Hout in Hs1. destruct Hs1 as (_ & Hret & ->).
    by apply calculate_mileage_returns.
  - intros Hab. rewrite Hab in Hs1. destruct Hs1 as (r & e & Hin & Hr).
    by eapply calculate_mileage_raises.
  - exists (Pool SEM_LIMIT (final_task <$> rows)).
    split; [apply run_to_end |].
    assert (forallb finished_task (final_task <$> rows) = true) as Hfin.
    { apply forallb_forall. intros t [r [-> _]]%list_elem_of_In%list_elem_of_fmap.
      unfold final_task. by destruct (distance_for r). }
    split; [exact Hfin |].
    unfold run_outcome. simpl.
    destruct (existsb failed_task (final_task <$> rows)) eqn:Hfail; [done |].
    assert (forall r, r ∈ rows -> returns (distance_for r)) as Hret.
    { intros r Hin. destruct (distance_for r) as [v|e] eqn:Hr; [by exists v |].
      assert (existsb failed_task (final_task <$> rows) = true) as Hex; [| congruence].
      apply existsb_exists. exists (Failed e). split; [| done].
      apply list_elem_of_In, list_elem_of_fmap. exists r. split; [| done].
      unfold final_task. by rewrite Hr. }
    rewrite (gathered_final rows 0 Hret), length_fmap.
    pose proof (store_tagged_any_order rows (tagged_results rows) (reflexivity _)) as Hst.
    unfold tagged_results in Hst. simpl. by rewrite Hst.
Qed.
End PoolFacts.

(** ** The claims on sample runs *)

Lemma output_matches_input_order_witness :
  exists results out,
    gather (tasks_of repr_unused (Some "k") post_160934 rows_mixed) = Ok results
    /\ length (tasks_of repr_unused (Some "k") post_160934 rows_mixed) = length rows_mixed
    /\ results.*1 = seq 0 (length rows_mixed)
    /\ calculate_mileage repr_unused (Some "k") post_160934 rows_mixed = Ok out
    /\ length out = length rows_mixed
    /\ (forall i r, rows_mixed !! i = Some r ->
          exists v, distance_for repr_unused (Some "k") post_160934 r = Ok v
                    /\ out !! i = Some v)
    /\ (forall results', results' ≡ₚ results ->
          store_results (replicate (length rows_mixed) None) results' = Ok out).
Proof.
  apply (output_matches_input_order repr_unused (Some "k") post_160934 rows_mixed).
  intros r Hr. unfold rows_mixed in Hr.
  apply elem_of_cons in Hr as [-> | Hr];
    [| apply elem_of_cons in Hr as [-> | Hr]; [| by apply elem_of_nil in Hr]];
    eexists; vm_compute; reflexivity.
Defined.

Lemma pool_calling_reachable :
  reachable repr_unused (Some "k") post_unreachable rows_mixed pool_calling.
Proof.
  unfold reachable, init, pool_calling. simpl.
  eapply rtc_l; [apply (step_acquire _ _ _ _ 0 19 [Waiting; Waiting]); reflexivity |].
  eapply rtc_l; [| apply rtc_refl].
  eapply (step_post _ _ _ _ 0 19 [Holding; Waiting] row_mexico); try reflexivity.
Qed.

Lemma pool_failed_first_reachable :
  reachable repr_unused (Some "k") post_unreachable rows_mixed pool_failed_first.
Proof.
  unfold reachable. etrans; [apply pool_calling_reachable |].
  apply rtc_once. unfold pool_calling, pool_failed_first.
  apply (step_raise _ _ _ _ 0 19
           [InFlight "JUAREZ, CH, Mexico" "MONTERREY, NL, Mexico"; Waiting]
           "JUAREZ, CH, Mexico" "MONTERREY, NL, Mexico" "k" TransportError);
    reflexivity.
Qed.

Lemma pool_failed_last_reachable :
  reachable repr_unused (Some "k") post_unreachable rows_mixed pool_failed_last.
Proof.
  unfold reachable, init, pool_failed_last. simpl.
  eapply rtc_l; [apply (step_acquire _ _ _ _ 1 19 [Waiting; Waiting]); reflexivity |].
  eapply rtc_l; [apply (step_acquire _ _ _ _ 0 18 [Waiting; Holding]); reflexivity |].
  eapply rtc_l.
  { eapply (step_no_leg _ _ _ _ 1 18 [Holding; Holding] row_domestic); reflexivity. }
  eapply rtc_l.
  { eapply (step_post _ _ _ _ 0 19 [Holding; Returned None] row_mexico); reflexivity. }
  apply rtc_once.
  apply (step_raise _ _ _ _ 0 19
           [InFlight "JUAREZ, CH, Mexico" "MONTERREY, NL, Mexico"; Returned None]
           "JUAREZ, CH, Mexico" "MONTERREY, NL, Mexico" "k" TransportError);
    reflexivity.
Qed.

Lemma at_most_twenty_in_flight_witness :
  count in_flight (pool_tasks pool_calling) <= 20
  /\ sem_value pool_calling + count holds_slot (pool_tasks pool_calling) = 20.
Proof.
  destruct (at_most_twenty_in_flight repr_unused (Some "k") post_unreachable
              rows_mixed pool_calling pool_calling_reachable) as (H1 & H2 & _).
  exact (conj H1 H2).
Defined.

Lemma run_outcome_deterministic_witness :
  run_outcome pool_failed_first = run_outcome pool_failed_last.
Proof.
  refine (proj1 (run_outcome_deterministic repr_unused (Some "k") post_unreachable
                   rows_mixed pool_failed_first pool_failed_last
                   pool_failed_first_reachable pool_failed_last_reachable _ _));
    discriminate.
Defined.

(** C1, at the input where it fails: over two records, the first with a
    leg inside Mexico, and a provider that cannot be reached, the pipeline
    raises and returns no column at all, where the claim has a column of
    two entries; the run under the semaphore ends aborted as well, also
    when the record without a leg was served first and has its result. *)
Lemma unreachable_provider_leaves_no_column :
  length rows_mixed = 2
  /\ calculate_mileage repr_unused (Some "k") post_unreachable rows_mixed
     = Raise TransportError
  /\ (forall out,
        calculate_mileage repr_unused (Some "k") post_unreachable rows_mixed ≠ Ok out)
  /\ reachable repr_unused (Some "k") post_unreachable rows_mixed pool_failed_last
  /\ run_outcome pool_failed_last = Aborted.
Proof.
  assert (calculate_mileage repr_unused (Some "k") post_unreachable rows_mixed
          = Raise TransportError) as Hraise by (vm_compute; reflexivity).
  split; [reflexivity |]. split; [exact Hraise |]. split.
  - intros out Hout. rewrite Hraise in Hout. discriminate.
  - split; [apply pool_failed_last_reachable | reflexivity].
Qed.

(** * Further properties of the code *)

(** ** Normalisation *)

Lemma lstrip_idem (s : string) : PyStr.lstrip (PyStr.lstrip s) = PyStr.lstrip s.
Proof.
  induction s as [|c s IH]; simpl; [done |].
  destruct (PyStr.is_space c) eqn:Hc; [done |]. simpl. by rewrite Hc.
Qed.

Lemma rstrip_idem (s : string) : PyStr.rstrip (PyStr.rstrip s) = PyStr.rstrip s.
Proof.
  induction s as [|c s IH]; simpl; [done |].
  destruct (PyStr.rstrip s) as [|a r] eqn:Hr.
  - destruct (PyStr.is_space c) eqn:Hc; simpl; [done |]. by rewrite Hc.
  - change (PyStr.rstrip (String c (String a r))) with
      (match PyStr.rstrip (String a r) with
       | EmptyString =>
           if PyStr.is_space c then EmptyString else String c EmptyString
       | r' => String c r'
       end).
    by rewrite IH.
Qed.

Lemma lstrip_rstrip_comm (s : string) :
  PyStr.rstrip (PyStr.lstrip s) = PyStr.lstrip (PyStr.rstrip s).
Proof.
  induction s as [|c s IH]; simpl; [done |].
  destruct (PyStr.is_space c) eqn:Hc.
  - rewrite IH. destruct (PyStr.rstrip s) as [|a r]; simpl; by rewrite ?Hc.
  - simpl. destruct (PyStr.rstrip s) as [|a r]; simpl; by rewrite Hc.
Qed.

Lemma strip_idem (s : string) : PyStr.strip (PyStr.strip s) = PyStr.strip s.
Proof.
  unfold PyStr.strip.
  by rewrite lstrip_rstrip_comm, rstrip_idem, lstrip_idem.
Qed.

Lemma lstrip_head (s : string) (c : ascii) (t : string) :
  PyStr.lstrip s = String c t -> PyStr.is_space c = false.
Proof.
  induction s as [|a s IH]; simpl; [done |].
  destruct (PyStr.is_space a) eqn:Ha; [done |]. by intros [= <- _].
Qed.

Section NormalisationFacts.
Variable repr_other : spec_float -> string.

Lemma norm_strip_fixed (v : pyval) (s : string) :
  norm repr_other v = Some s -> PyStr.strip s = s.
Proof.
  unfold norm. destruct (is_none v); [done |].
  destruct (is_float_nan v); [done |]. intros [= <-]. apply strip_idem.
Qed.

(** A normalised field is a fixed point of normalisation: it has no
    whitespace left at either end, so reading a cell that holds it gives
    it back, and [strip] does nothing to it. *)
Theorem norm_is_idempotent (v : pyval) (s : string) :
  norm repr_other v = Some s ->
  norm repr_other (PyStr s) = Some s
  /\ PyStr.strip s = s
  /\ PyStr.lstrip s = s
  /\ PyStr.rstrip s = s
  /\ (forall c t, s = String c t -> PyStr.is_space c = false).
Proof.
  intros Hv.
  assert (exists s0, s = PyStr.strip s0) as [s0 ->].
  { unfold norm in Hv. destruct (is_none v); [done |].
    destruct (is_float_nan v); [done |]. injection Hv as <-. eauto. }
  assert (PyStr.strip (PyStr.strip s0) = PyStr.strip s0) as Hs by apply strip_idem.
  split; [unfold norm; simpl; by rewrite Hs |].
  split; [exact Hs |].
  split; [unfold PyStr.strip; apply lstrip_idem |].
  split.
  - unfold PyStr.strip. by rewrite lstrip_rstrip_comm, rstrip_idem.
  - intros c t Hct. by eapply lstrip_head.
Qed.

(** The U.S. address the classifier builds from three cells: when it
    builds one, the normalised city and state are both non-empty and the
    address is exactly city, state, the normalised zip when that is not
    empty, and ["USA"], joined by [", "]; the [strip] inside
    [build_us_address] changes nothing. *)
Theorem us_address_of_normalised_cells (city state zip : pyval) (a : string) :
  build_us_address repr_other (norm repr_other city) (norm repr_other state)
    (of_opt (norm repr_other zip)) = Some a ->
  exists c s,
    norm repr_other city = Some c /\ c ≠ ""
    /\ norm repr_other state = Some s /\ s ≠ ""
    /\ a = c ++ ", " ++ s
           ++ match norm repr_other zip with
              | Some (String z0 z) => ", " ++ String z0 z
              | _ => ""
              end
           ++ ", USA".
Proof.
  intros Ha.
  destruct (norm repr_other city) as [c|] eqn:Hc; [| done].
  destruct (norm repr_other state) as [s|] eqn:Hs; [| by destruct c].
  destruct (decide (c = "")) as [-> | Hcn]; [done |].
  destruct (decide (s = "")) as [-> | Hsn]; [by destruct c |].
  rewrite build_us_address_present in Ha by done. injection Ha as <-.
  rewrite (norm_strip_fixed city c Hc), (norm_strip_fixed state s Hs).
  exists c, s. repeat split; try done.
  do 4 f_equal. unfold zip_part.
  by destruct (norm repr_other zip) as [[|z0 z]|].
Qed.
End NormalisationFacts.

Lemma norm_is_idempotent_witness :
  norm repr_unused (PyStr "El Paso") = Some "El Paso"
  /\ PyStr.strip "El Paso" = "El Paso".
Proof.
  destruct (norm_is_idempotent repr_unused (PyStr "  El Paso ") "El Paso" eq_refl)
    as (H1 & H2 & _).
  exact (conj H1 H2).
Defined.

Lemma us_address_of_normalised_cells_witness :
  exists c s,
    norm repr_unused (PyStr " San Diego ") = Some c /\ c ≠ ""
    /\ norm repr_unused (PyStr "CA") = Some s /\ s ≠ ""
    /\ "San Diego, CA, 92101, USA"
       = c ++ ", " ++ s
           ++ match norm repr_unused (PyInt 92101) with
              | Some (String z0 z) => ", " ++ String z0 z
              | _ => ""
              end
           ++ ", USA".
Proof.
  exact (us_address_of_normalised_cells repr_unused (PyStr " San Diego ")
           (PyStr "CA") (PyInt 92101) "San Diego, CA, 92101, USA" eq_refl).
Defined.

(** ** LegClassifier *)

Section ClassifierFacts.
Variable repr_other : spec_float -> string.

(** The classifier gives no pair or a whole one: never one address
    without the other, never an empty address, and a pair only when a
    Mexico field is filled. *)
Theorem classify_never_partial (r : row) :
  classify_and_build_addresses repr_other r = (None, None)
  \/ exists a b,
       classify_and_build_addresses repr_other r = (Some a, Some b)
       /\ a ≠ "" /\ b ≠ ""
       /\ applicable_rule repr_other r ≠ Rule4.
Proof.
  destruct (classify_pair_or_nothing repr_other r)
    as [Hc | (a & b & Hc & Ha%truthy_nonempty & Hb%truthy_nonempty)]; [by left |].
  right. exists a, b. repeat split; try done.
  intros H4. rewrite classify_by_rule, H4 in Hc. discriminate.
Qed.

(** The classifier reads the eight named columns and nothing else: two
    rows that agree on them get the same pair, whatever their other
    columns hold. *)
Theorem classify_reads_eight_columns (r r' : row) :
  (forall c, c ∈ required_cols -> row_get r c = row_get r' c) ->
  classify_and_build_addresses repr_other r = classify_and_build_addresses repr_other r'.
Proof.
  intros H.
  assert (forall c, c ∈ required_cols -> row_get r c = row_get r' c) as H' by exact H.
  unfold classify_and_build_addresses.
  rewrite !H' by (unfold required_cols; set_solver).
  reflexivity.
Qed.
End ClassifierFacts.

Lemma classify_reads_eight_columns_witness :
  classify_and_build_addresses repr_unused (<["Notes" := PyStr "fragile"]> row_mexico)
  = classify_and_build_addresses repr_unused row_mexico.
Proof.
  apply (classify_reads_eight_columns repr_unused).
  intros c Hc. unfold required_cols in Hc.
  unfold row_get. rewrite lookup_insert_ne; [done |].
  intros <-.
  repeat (apply elem_of_cons in Hc as [Hc | Hc]; [discriminate |]).
  by apply elem_of_nil in Hc.
Defined.

(** ** DistanceClient *)

(** A 200 answer whose body is not what the client expects makes the
    lookup raise: a body that is not JSON, a body that is not an object, a
    [routes] entry that is a non-empty object or a number, a first route
    that is not an object, a [distanceMeters] that is a string, a list or
    an object. *)
Theorem malformed_answer_raises :
  read_response (Response 200 None) = Raise JSONDecodeError
  /\ (forall data, (forall fields, data ≠ JObj fields) ->
        read_response (Response 200 (Some data)) = Raise AttributeError)
  /\ (forall fields f fs, Json.lookup fields "routes" = Some (JObj (f :: fs)) ->
        read_response (Response 200 (Some (JObj fields))) = Raise KeyError)
  /\ (forall fields n, Json.lookup fields "routes" = Some (JInt n) -> n ≠ 0%Z ->
        read_response (Response 200 (Some (JObj fields))) = Raise TypeError)
  /\ (forall fields x more,
        Json.lookup fields "routes" = Some (JArr (x :: more)) ->
        (forall rfields, x ≠ JObj rfields) ->
        read_response (Response 200 (Some (JObj fields))) = Raise AttributeError)
  /\ (forall fields rfields more meters,
        Json.lookup fields "routes" = Some (JArr (JObj rfields :: more)) ->
        Json.lookup rfields "distanceMeters" = Some meters ->
        (exists s, meters = JStr s) \/ (exists l, meters = JArr l)
        \/ (exists o, meters = JObj o) ->
        read_response (Response 200 (Some (JObj fields))) = Raise TypeError).
Proof.
  split; [done |]. split; [| split; [| split; [| split]]].
  - intros data Hd. destruct data; try done. by destruct (Hd fields).
  - intros fields f fs Hf. unfold read_response. simpl. by rewrite Hf.
  - intros fields n Hf Hn. unfold read_response. simpl. rewrite Hf. simpl.
    by destruct (Z.eqb_spec n 0).
  - intros fields x more Hf Hx. unfold read_response. simpl. rewrite Hf. simpl.
    destruct x; try done. by destruct (Hx fields0).
  - intros fields rfields more meters Hf Hm Hk.
    unfold read_response. simpl. rewrite Hf. simpl. rewrite Hm. simpl.
    by destruct Hk as [[s ->] | [[l ->] | [o ->]]].
Qed.

(** ** EnrichmentPipeline: the batch as a whole *)

Section BatchFacts.
Variable repr_other : spec_float -> string.
Variable GOOGLE_API_KEY : option string.
Variable post : string -> string -> string -> http_result.

#[local] Abbreviation classify := (classify_and_build_addresses repr_other).
#[local] Abbreviation distance_for := (distance_for repr_other GOOGLE_API_KEY post).
#[local] Abbreviation miles_of := (miles_of repr_other GOOGLE_API_KEY post).
#[local] Abbreviation calculate_mileage :=
  (calculate_mileage repr_other GOOGLE_API_KEY post).

Lemma returns_or_raises (rows : list row) :
  (forall r, r ∈ rows -> returns (distance_for r))
  \/ (exists r e, r ∈ rows /\ distance_for r = Raise e).
Proof.
  induction rows as [|r rows [IH | (r' & e & Hin & Hr')]].
  - left. intros r Hr. by apply elem_of_nil in Hr.
  - destruct (distance_for r) as [v|e] eqn:Hr.
    + left. intros r' [-> | Hin]%elem_of_cons; [by exists v | by apply IH].
    + right. exists r, e. split; [left | done].
  - right. exists r', e. split; [by right | done].
Qed.

(** The batch is all or nothing: it returns a column exactly when the
    lookup of every record returns, and the column then holds each
    record's value in record order; it raises exactly when the lookup of
    some record raises. *)
Theorem batch_returns_iff_lookups_return (rows : list row) :
  (forall out,
     calculate_mileage rows = Ok out
     <-> (forall r, r ∈ rows -> returns (distance_for r)) /\ out = miles_of <$> rows)
  /\ ((exists e, calculate_mileage rows = Raise e)
      <-> exists r e, r ∈ rows /\ distance_for r = Raise e).
Proof.
  split.
  - intros out. split.
    + intros Hout.
      destruct (returns_or_raises rows) as [Hret | (r & e & Hin & Hr)].
      * split; [exact Hret |].
        rewrite (calculate_mileage_returns _ _ _ rows Hret) in Hout. congruence.
      * destruct (calculate_mileage_raises _ _ _ rows r e Hin Hr) as [e' He'].
        congruence.
    + intros [Hret ->]. by apply calculate_mileage_returns.
  - split.
    + intros [e He].
      destruct (returns_or_raises rows) as [Hret | Hraise]; [| exact Hraise].
      rewrite (calculate_mileage_returns _ _ _ rows Hret) in He. congruence.
    + intros (r & e & Hin & Hr). by eapply calculate_mileage_raises.
Qed.

(** A batch in which no record has a Mexico leg never needs the
    provider: whatever the key and the provider, unreachable or not, every
    record gets absent. *)
Theorem no_leg_batch_all_absent (rows : list row) :
  (forall r, r ∈ rows -> classify r = (None, None)) ->
  calculate_mileage rows = Ok (replicate (length rows) None).
Proof.
  intros Hno.
  assert (forall r, r ∈ rows -> distance_for r = Ok None) as Hd.
  { intros r Hr.
    apply (distance_for_no_leg _ _ _ r None None); [by apply Hno | done]. }
  rewrite calculate_mileage_returns.
  - f_equal. clear Hno. induction rows as [|r rows IH]; [done |].
    rewrite fmap_cons. simpl. f_equal.
    + unfold miles_of. rewrite Hd; [done | left].
    + apply IH. intros r' Hr'. apply Hd. by right.
  - intros r Hr. exists None. by apply Hd.
Qed.

(** Writing tagged results into the slot list: with no tag twice and
    every tag in range, each tagged slot ends with its value, the other
    slots keep what they held and the length stays; a tag out of range,
    anywhere in the list, makes the write raise [IndexError]. *)
Theorem store_results_fills_slots (results : list (nat * option spec_float))
    (slots : list (option spec_float)) :
  (NoDup results.*1 ->
   (forall idx v, (idx, v) ∈ results -> idx < length slots) ->
   exists out, store_results slots results = Ok out
     /\ length out = length slots
     /\ (forall idx v, (idx, v) ∈ results -> out !! idx = Some v)
     /\ (forall i, i ∉ results.*1 -> out !! i = slots !! i))
  /\ (forall idx v, (idx, v) ∈ results -> length slots <= idx ->
      store_results slots results = Raise IndexError).
Proof.
  split; [apply store_results_spec |].
  revert slots. induction results as [|[i0 v0] rest IH]; intros slots idx v Hin Hge.
  - by apply elem_of_nil in Hin.
  - simpl. unfold set_item. destruct (decide (i0 < length slots)) as [Hlt | Hnlt]; [| done].
    cbn. apply elem_of_cons in Hin as [[= -> ->] | Hin]; [lia |].
    apply (IH _ idx v Hin). by rewrite length_insert.
Qed.
End BatchFacts.

Lemma no_leg_batch_all_absent_witness :
  calculate_mileage repr_unused (Some "k") post_unreachable [row_domestic; row_no_state]
  = Ok [None; None].
Proof.
  apply (no_leg_batch_all_absent repr_unused (Some "k") post_unreachable
           [row_domestic; row_no_state]).
  intros r Hr.
  apply elem_of_cons in Hr as [-> | Hr]; [reflexivity |].
  apply elem_of_cons in Hr as [-> | Hr]; [reflexivity |].
  by apply elem_of_nil in Hr.
Defined.

(** ** EnrichmentPipeline: how the tasks move *)

Section ScheduleFacts.
Variable repr_other : spec_float -> string.
Variable GOOGLE_API_KEY : option string.
Variable post : string -> string -> string -> http_result.

#[local] Abbreviation step := (step repr_other GOOGLE_API_KEY post).
#[local] Abbreviation reachable := (reachable repr_other GOOGLE_API_KEY post).
#[local] Abbreviation key_usable := (key_usable GOOGLE_API_KEY).

Lemma count_pos_lookup (p : task -> bool) (ts : list task) :
  0 < count p ts -> exists i t, ts !! i = Some t /\ p t = true.
Proof.
  induction ts as [|t ts IH]; simpl; [lia |].
  destruct (p t) eqn:Hp; [by exists 0, t |].
  intros Hc. destruct IH as (i & t' & Hi & Ht'); [lia |]. by exists (S i), t'.
Qed.

Lemma count_zero_lookup (p : task -> bool) (ts : list task) (i : nat) (t : task) :
  count p ts = 0 -> ts !! i = Some t -> p t = false.
Proof.
  revert i. induction ts as [|t0 ts IH]; intros [|i] Hc Hi; simplify_eq/=.
  - by destruct (p t).
  - apply (IH i); [| done]. destruct (p t0); simpl in Hc; lia.
Qed.

Lemma unfinished_lookup (ts : list task) :
  forallb finished_task ts = false ->
  exists i t, ts !! i = Some t /\ finished_task t = false.
Proof.
  induction ts as [|t ts IH]; simpl; [done |].
  destruct (finished_task t) eqn:Ht; [| by exists 0, t].
  intros Hf. destruct (IH Hf) as (i & t' & Hi & Ht'). by exists (S i), t'.
Qed.

(** Every step moves exactly one task forward and leaves the others as
    they are: a task goes from waiting to holding a slot, to calling, to
    ended, never back, and a task that has ended keeps its result. *)
Theorem tasks_only_advance (rows : list row) (st st' : pool) :
  step rows st st' ->
  length (pool_tasks st') = length (pool_tasks st)
  /\ (exists j t t',
        pool_tasks st !! j = Some t /\ pool_tasks st' !! j = Some t'
        /\ task_rank t < task_rank t'
        /\ forall i, i ≠ j -> pool_tasks st' !! i = pool_tasks st !! i)
  /\ (forall i t, pool_tasks st !! i = Some t -> finished_task t = true ->
        pool_tasks st' !! i = Some t).
Proof.
  intros Hstep.
  assert (forall (ts : list task) j t t',
    ts !! j = Some t -> task_rank t < task_rank t' ->
    length (<[j:=t']> ts) = length ts
    /\ (exists j0 t0 t0',
          ts !! j0 = Some t0 /\ <[j:=t']> ts !! j0 = Some t0'
          /\ task_rank t0 < task_rank t0'
          /\ forall i, i ≠ j0 -> <[j:=t']> ts !! i = ts !! i)
    /\ (forall i u, ts !! i = Some u -> finished_task u = true ->
          <[j:=t']> ts !! i = Some u)) as Hmove.
  { intros ts j t t' Hj Hrank. split; [apply length_insert |]. split.
    - exists j, t, t'. split; [done |]. split.
      + apply list_lookup_insert_eq. by eapply lookup_lt_Some.
      + split; [done |]. intros i Hi. by apply list_lookup_insert_ne.
    - intros i u Hi Hu. destruct (decide (i = j)) as [-> | Hne].
      + rewrite Hj in Hi. injection Hi as <-.
        destruct t, t'; simpl in *; try done; lia.
      + rewrite list_lookup_insert_ne; done. }
  destruct Hstep; simpl; eapply Hmove; try eassumption; simpl; lia.
Qed.

(** A run is never stuck: from every state it can reach in which some
    task has not ended, a step can be taken. *)
Theorem run_never_stuck (rows : list row) (st : pool) :
  reachable rows st -> finished st = false -> exists st', step rows st st'.
Proof.
  intros Hreach Hfin.
  destruct (pool_inv_reachable _ _ _ rows st Hreach) as (Hsem & Hlen & Hfit).
  destruct st as [n ts]. unfold finished in Hfin. simpl in *.
  destruct (Nat.eq_dec (count holds_slot ts) 0) as [Hzero | Hpos].
  - destruct (unfinished_lookup ts Hfin) as (i & t & Hi & Ht).
    pose proof (count_zero_lookup holds_slot ts i t Hzero Hi) as Hnh.
    destruct t; try done.
    rewrite Hzero in Hsem. change SEM_LIMIT with 20 in Hsem.
    assert (n = S 19) as -> by lia.
    eexists. by apply step_acquire.
  - destruct (count_pos_lookup holds_slot ts) as (i & t & Hi & Ht); [lia |].
    destruct (lookup_lt_is_Some_2 rows i) as [r Hr].
    { rewrite <- Hlen. by eapply lookup_lt_Some. }
    destruct t as [| |o d| |]; try done.
    + destruct (classify_pair_or_nothing repr_other r)
        as [Hc | (a & b & Hc & Ha & Hb)].
      * eexists. by eapply step_no_leg.
      * assert (PyStr.truthy a && PyStr.truthy b = true) as Hab by by rewrite Ha, Hb.
        destruct key_usable as [key|] eqn:Hk.
        -- eexists. by eapply step_post.
        -- eexists. by eapply step_no_key.
    + destruct (Hfit i r _ Hr Hi) as (key & Hk & _).
      destruct (read_response (post key o d)) as [miles|e] eqn:Hresp.
      * eexists. by eapply step_response.
      * eexists. by eapply step_raise.
Qed.
End ScheduleFacts.

Lemma pool_calling_fails :
  step repr_unused (Some "k") post_unreachable rows_mixed pool_calling pool_failed_first.
Proof.
  apply (step_raise _ _ _ _ 0 19
           [InFlight "JUAREZ, CH, Mexico" "MONTERREY, NL, Mexico"; Waiting]
           "JUAREZ, CH, Mexico" "MONTERREY, NL, Mexico" "k" TransportError);
    reflexivity.
Qed.

Lemma tasks_only_advance_witness :
  length (pool_tasks pool_failed_first) = length (pool_tasks pool_calling)
  /\ forall i t, pool_tasks pool_calling !! i = Some t -> finished_task t = true ->
       pool_tasks pool_failed_first !! i = Some t.
Proof.
  destruct (tasks_only_advance repr_unused (Some "k") post_unreachable rows_mixed
              pool_calling pool_failed_first pool_calling_fails) as (H1 & _ & H3).
  exact (conj H1 H3).
Defined.

Lemma run_never_stuck_witness :
  exists st', step repr_unused (Some "k") post_unreachable rows_mixed pool_calling st'.
Proof.
  exact (run_never_stuck repr_unused (Some "k") post_unreachable rows_mixed
           pool_calling pool_calling_reachable eq_refl).
Defined.

(** ** The request handler *)

Lemma str_endswith_spec (s suffix : string) :
  str_endswith s suffix = true <-> exists stem, s = stem ++ suffix.
Proof.
  induction s as [|c s IH].
  - change (str_endswith "" suffix) with (String.eqb "" suffix || false).
    rewrite orb_false_r, String.eqb_eq. split.
    + intros <-. by exists "".
    + intros [stem Hs]. by destruct stem.
  - change (str_endswith (String c s) suffix)
      with (String.eqb (String c s) suffix || str_endswith s suffix).
    rewrite orb_true_iff, String.eqb_eq, IH. split.
    + intros [<- | [stem ->]]; [by exists "" | by exists (String c stem)].
    + intros [[|c' stem] Hs]; simpl in Hs; [by left |].
      injection Hs as <- ->. right. by exists stem.
Qed.

Lemma has_excel_extension_spec (filename : string) :
  has_excel_extension filename = true
  <-> exists stem, str_lower filename = stem ++ ".xlsx"
                   \/ str_lower filename = stem ++ ".xls".
Proof.
  unfold has_excel_extension. rewrite orb_true_iff, !str_endswith_spec.
  split.
  - intros [[stem H] | [stem H]]; exists stem; auto.
  - intros [stem [H | H]]; [left | right]; by exists stem.
Qed.

Section HandlerFacts.
Variable repr_other : spec_float -> string.
Variable GOOGLE_API_KEY : option string.
Variable post : string -> string -> string -> http_result.
Variable read_excel : string -> option data_frame.

#[local] Abbreviation handle :=
  (handle_calculate_mileage repr_other GOOGLE_API_KEY post read_excel).
#[local] Abbreviation distance_for := (distance_for repr_other GOOGLE_API_KEY post).
#[local] Abbreviation miles_of := (miles_of repr_other GOOGLE_API_KEY post).

(** The handler answers 400 "Please upload an Excel .xlsx or .xls file"
    exactly when the file name, lower-cased, ends neither in [.xlsx] nor
    in [.xls]; the test is on the name alone, so whatever the bytes, the
    sheet and the provider are. *)
Theorem upload_rejected_iff_no_excel_extension (filename content : string) :
  handle filename content
  = HTTPException 400 "Please upload an Excel .xlsx or .xls file"
  <-> ~ exists stem, str_lower filename = stem ++ ".xlsx"
                     \/ str_lower filename = stem ++ ".xls".
Proof.
  rewrite <- has_excel_extension_spec. unfold handle_calculate_mileage.
  destruct (has_excel_extension filename); simpl.
  - split; [| done]. intros H. exfalso.
    destruct (read_excel content) as [df|]; [| discriminate].
    destruct (missing_cols df); [| discriminate].
    by destruct (calculate_mileage _ _ _ _).
  - split; [by intros _ ? | done].
Qed.

(** For a sheet that was read, the handler answers 400 "Missing columns"
    exactly when a required column is not among the sheet's columns; the
    message then lists the lacking columns, each once, in the order of the
    required list.  With all eight present it goes on to the pipeline. *)
Theorem missing_columns_reported (filename content : string) (df : data_frame) :
  has_excel_extension filename = true ->
  read_excel content = Some df ->
  (forall c, c ∈ missing_cols df <-> c ∈ required_cols /\ c ∉ df_columns df)
  /\ sublist (missing_cols df) required_cols
  /\ ((exists c, c ∈ required_cols /\ c ∉ df_columns df) ->
      handle filename content
      = HTTPException 400 ("Missing columns: " ++ repr_names (missing_cols df)))
  /\ ((forall c, c ∈ required_cols -> c ∈ df_columns df) ->
      handle filename content
      = match calculate_mileage repr_other GOOGLE_API_KEY post (df_rows df) with
        | Ok mexico_miles =>
            StreamingResponse ("attachment; filename=mexico_miles_" ++ filename)
              df mexico_miles
        | Raise e => Uncaught e
        end).
Proof.
  intros Hext Hread.
  assert (forall c, c ∈ missing_cols df <-> c ∈ required_cols /\ c ∉ df_columns df)
    as Hmem.
  { intros c. unfold missing_cols. rewrite list_elem_of_filter. tauto. }
  split; [exact Hmem |]. split; [apply sublist_filter |]. split.
  - intros (c & Hc). apply Hmem in Hc.
    unfold handle_calculate_mileage. rewrite Hext, Hread. simpl.
    destruct (missing_cols df); [by apply elem_of_nil in Hc | done].
  - intros Hall. unfold handle_calculate_mileage. rewrite Hext, Hread. simpl.
    destruct (missing_cols df) as [|c l] eqn:Hm; [done |].
    assert (c ∈ c :: l) as Hc by left.
    apply Hmem in Hc as [Hreq Hnot]. by destruct (Hnot (Hall c Hreq)).
Qed.

(** A valid upload whose lookups all return is answered with the sheet
    as read and a ["Mexico Miles"] column of as many entries as the sheet
    has rows, entry [i] being the value of row [i]; the download is named
    after the file as uploaded, its case kept. *)
Theorem valid_upload_gets_column (filename content : string) (df : data_frame) :
  has_excel_extension filename = true ->
  read_excel content = Some df ->
  (forall c, c ∈ required_cols -> c ∈ df_columns df) ->
  (forall r, r ∈ df_rows df -> returns (distance_for r)) ->
  exists mexico_miles,
    handle filename content
    = StreamingResponse ("attachment; filename=mexico_miles_" ++ filename)
        df mexico_miles
    /\ length mexico_miles = length (df_rows df)
    /\ forall i r, df_rows df !! i = Some r -> mexico_miles !! i = Some (miles_of r).
Proof.
  intros Hext Hread Hall Hret.
  exists (miles_of <$> df_rows df). split; [| split].
  - unfold handle_calculate_mileage. rewrite Hext, Hread. simpl.
    destruct (missing_cols df) as [|c l] eqn:Hm.
    + by rewrite (calculate_mileage_returns _ _ _ _ Hret).
    + assert (c ∈ missing_cols df) as Hc by (rewrite Hm; left).
      unfold missing_cols in Hc. apply list_elem_of_filter in Hc as [Hnot Hreq].
      by destruct (Hnot (Hall c Hreq)).
  - by rewrite length_fmap.
  - intros i r Hr. by rewrite list_lookup_fmap, Hr.
Qed.
End HandlerFacts.

Lemma missing_columns_reported_witness :
  handle_calculate_mileage repr_unused (Some "k") post_unreachable
    (fun _ => Some df_short) "Loads.XLSX" ""
  = HTTPException 400 "Missing columns: ['Origin Zip', 'Destination Zip']".
Proof.
  destruct (missing_columns_reported repr_unused (Some "k") post_unreachable
              (fun _ => Some df_short) "Loads.XLSX" "" df_short eq_refl eq_refl)
    as (_ & _ & H3 & _).
  rewrite H3; [vm_compute; reflexivity |].
  exists "Origin Zip". split.
  - unfold required_cols. do 4 right. left.
  - intros H. simpl in H.
    repeat (apply elem_of_cons in H as [H | H]; [discriminate |]).
    by apply elem_of_nil in H.
Defined.

Lemma valid_upload_gets_column_witness :
  exists mexico_miles,
    handle_calculate_mileage repr_unused (Some "k") post_160934
      (fun _ => Some df_mixed) "Loads.XLSX" ""
    = StreamingResponse "attachment; filename=mexico_miles_Loads.XLSX"
        df_mixed mexico_miles
    /\ length mexico_miles = length (df_rows df_mixed)
    /\ forall i r, df_rows df_mixed !! i = Some r ->
         mexico_miles !! i = Some (miles_of repr_unused (Some "k") post_160934 r).
Proof.
  apply (valid_upload_gets_column repr_unused (Some "k") post_160934
           (fun _ => Some df_mixed) "Loads.XLSX" "" df_mixed eq_refl eq_refl).
  - intros c Hc. change (df_columns df_mixed) with (required_cols ++ ["Notes"])%list.
    apply elem_of_app. by left.
  - intros r Hr. simpl in Hr.
    apply elem_of_cons in Hr as [-> | Hr];
      [| apply elem_of_cons in Hr as [-> | Hr]; [| by apply elem_of_nil in Hr]];
      eexists; vm_compute; reflexivity.
Defined.

(** ** EnrichmentPipeline: what a task carries *)

Section TaskFacts.
Variable repr_other : spec_float -> string.
Variable GOOGLE_API_KEY : option string.
Variable post : string -> string -> string -> http_result.

(** In every state a run can reach, a call in flight for task [i] is the
    call for record [i]: its two addresses are the non-empty pair the
    classifier gives for that record, and a non-empty key is configured;
    and a task that has returned holds the value of its own record. *)
Theorem tasks_carry_their_record (rows : list row) (st : pool) (i : nat) :
  reachable repr_other GOOGLE_API_KEY post rows st ->
  (forall o d, pool_tasks st !! i = Some (InFlight o d) ->
     exists r key,
       rows !! i = Some r
       /\ classify_and_build_addresses repr_other r = (Some o, Some d)
       /\ o ≠ "" /\ d ≠ ""
       /\ GOOGLE_API_KEY = Some key /\ key ≠ "")
  /\ (forall miles, pool_tasks st !! i = Some (Returned miles) ->
     exists r, rows !! i = Some r
       /\ distance_for repr_other GOOGLE_API_KEY post r = Ok miles).
Proof.
  intros Hreach.
  destruct (pool_inv_reachable _ _ _ rows st Hreach) as (_ & Hlen & Hfit).
  assert (forall t, pool_tasks st !! i = Some t -> exists r, rows !! i = Some r) as Hrow.
  { intros t Ht. apply lookup_lt_is_Some_2. rewrite <- Hlen. by eapply lookup_lt_Some. }
  split.
  - intros o d Ht. destruct (Hrow _ Ht) as [r Hr].
    destruct (Hfit i r _ Hr Ht) as (key & Hk & Hc & [Ho Hd]%andb_true_iff).
    exists r, key. split; [done |]. split; [done |].
    split; [by apply truthy_nonempty |]. split; [by apply truthy_nonempty |].
    unfold key_usable in Hk. destruct GOOGLE_API_KEY as [k|]; [| done].
    destruct (PyStr.truthy k) eqn:Hkt; [| done]. injection Hk as ->.
    split; [done | by apply truthy_nonempty].
  - intros miles Ht. destruct (Hrow _ Ht) as [r Hr]. exists r. split; [done |].
    pose proof (Hfit i r _ Hr Ht) as Hfin. simpl in Hfin. unfold final_task in Hfin.
    destruct (distance_for repr_other GOOGLE_API_KEY post r); congruence.
Qed.
End TaskFacts.

Lemma tasks_carry_their_record_witness :
  exists r key,
    rows_mixed !! 0 = Some r
    /\ classify_and_build_addresses repr_unused r
       = (Some "JUAREZ, CH, Mexico", Some "MONTERREY, NL, Mexico")
    /\ "JUAREZ, CH, Mexico" ≠ "" /\ "MONTERREY, NL, Mexico" ≠ ""
    /\ Some "k" = Some key /\ key ≠ "".
Proof.
  destruct (tasks_carry_their_record repr_unused (Some "k") post_unreachable
              rows_mixed pool_calling 0 pool_calling_reachable) as [H _].
  exact (H _ _ eq_refl).
Defined.
